(** * pcurses: the [Package] data model (src/package.cpp)

    A shallow embedding of [Package] -- the record that pcurses builds for
    every libalpm package -- together with its helpers [size2str],
    [trimstr], [list2str], [deplist2str] and its accessors.

    Conventions of the embedding:
    - [std::string] is [string]; a nullable [const char *] is
      [option string], [None] being [NULL];
    - an [alpm_list_t *] is a [list], [NULL] being the empty list;
    - [off_t], [time_t] and [int] values are [Z];
    - [float] and [double] are IEEE-754 binary32 and binary64, given by the
      standard library's [SpecFloat] operations at precisions 24 and 53;
    - a function that may throw returns [except A]. *)

From Stdlib Require Import ZArith List String Ascii Bool Lia.
From Stdlib Require Import Floats.SpecFloat.
From Stdlib Require Import DecimalString.
Import ListNotations.

Local Open Scope string_scope.
Local Open Scope Z_scope.

(** ** Exceptions *)

Inductive PcursesException : Type :=
| mkPcursesException (what : string).

(** The result of a call: a value, a [PcursesException], or the
    [std::logic_error] that [std::string] throws when it is built from a
    null pointer. *)
Inductive except (A : Type) : Type :=
| Return (a : A)
| Throw (e : PcursesException)
| ThrowLogicError.

Arguments Return {A} a.
Arguments Throw {A} e.
Arguments ThrowLogicError {A}.

Definition raises {A : Type} (r : except A) : Prop :=
  exists e, r = Throw e.

(** ** The part of [std::string] that the file uses *)

Module StdString.

Fixpoint mem (c : ascii) (set : string) : bool :=
  match set with
  | EmptyString => false
  | String d set' => Ascii.eqb c d || mem c set'
  end.

(** [str.find_first_not_of(set)]: the least position whose character is
    not in [set]; [None] is [string::npos]. *)
Fixpoint find_first_not_of (str set : string) : option nat :=
  match str with
  | EmptyString => None
  | String c str' =>
      if mem c set then option_map S (find_first_not_of str' set)
      else Some O
  end.

(** [str.find_last_not_of(set)]: the greatest such position. *)
Fixpoint find_last_not_of (str set : string) : option nat :=
  match str with
  | EmptyString => None
  | String c str' =>
      match find_last_not_of str' set with
      | Some j => Some (S j)
      | None => if mem c set then None else Some O
      end
  end.

(** [str.substr(pos, len)] for [pos <= str.size()]. *)
Definition substr (str : string) (pos len : nat) : string :=
  substring pos len str.

End StdString.

(** ** [Package::trimstr] *)

Definition tab : ascii := "009"%char.
Definition newline : ascii := "010"%char.

(** The literal [" \t\n"]. *)
Definition whitespace : string :=
  String " "%char (String tab (String newline EmptyString)).

Definition trimstr (c : option string) : string :=
  match c with
  | None => ""
  | Some str =>
      let startpos := StdString.find_first_not_of str whitespace in
      let endpos := StdString.find_last_not_of str whitespace in
      match startpos, endpos with
      | Some startpos, Some endpos =>
          StdString.substr str startpos (endpos - startpos + 1)
      | _, _ => ""
      end
  end.

Definition is_space (c : ascii) : Prop :=
  c = " "%char \/ c = tab \/ c = newline.

Fixpoint all_space (s : string) : Prop :=
  match s with
  | EmptyString => True
  | String c s' => is_space c /\ all_space s'
  end.

(** ** [Package::list2str] and [Package::deplist2str] *)

(** The loop of [list2str]; [first] tells whether the cursor [i] is still
    the head [l] of the list. *)
Fixpoint list2str_loop (first : bool) (i : list string) (delim res : string)
  : string :=
  match i with
  | [] => res
  | s :: next =>
      let res := if first then res else res ++ delim in
      list2str_loop false next delim (res ++ s)
  end.

Definition list2str (l : list string) (delim : string) : string :=
  list2str_loop true l delim "".

Section Deplist.

Variable alpm_depend_t : Type.
Variable alpm_dep_compute_string : alpm_depend_t -> string.

Fixpoint deplist2str_loop (deps : list alpm_depend_t) (delim res : string)
  : string :=
  match deps with
  | [] => res
  | depend :: next =>
      let res := res ++ alpm_dep_compute_string depend in
      let res := match next with
                 | [] => res
                 | _ :: _ => res ++ delim
                 end in
      deplist2str_loop next delim res
  end.

Definition deplist2str (l : list alpm_depend_t) (delim : string) : string :=
  deplist2str_loop l delim "".

End Deplist.

Arguments deplist2str {alpm_depend_t} alpm_dep_compute_string l delim.

(** The items in order, one delimiter between two neighbours, none before
    the first item and none after the last. *)
Fixpoint join (delim : string) (items : list string) : string :=
  match items with
  | [] => ""
  | [x] => x
  | x :: (_ :: _) as rest => x ++ delim ++ join delim rest
  end.

(** ** [Package::size2str] *)

(** [float fsize = size]: conversion of a 64-bit integer to binary32,
    rounding to nearest, ties to even. *)
Definition float_of_off_t (size : Z) : spec_float :=
  binary_normalize 24 128 size 0 false.

(** The usual arithmetic conversion of a [float] operand to [double]
    (exact), and the conversion back on assignment to a [float]. *)
Definition double_of_float (x : spec_float) : spec_float :=
  match x with
  | S754_finite s m e => binary_round 53 1024 s m e
  | _ => x
  end.

Definition float_of_double (x : spec_float) : spec_float :=
  match x with
  | S754_finite s m e => binary_round 24 128 s m e
  | _ => x
  end.

(** The [double] literal [1024.0]. *)
Definition d1024 : spec_float := binary_normalize 53 1024 1024 0 false.

(** [fsize > 1024.0] and [fsize /= 1024.0], both computed in [double]. *)
Definition fsize_gt_1024 (fsize : spec_float) : bool :=
  SFltb d1024 (double_of_float fsize).

Definition fsize_div_1024 (fsize : spec_float) : spec_float :=
  float_of_double (SFdiv 53 1024 (double_of_float fsize) d1024).

Definition units : list string := ["B"; "KB"; "MB"; "GB"; "TB"].

Definition unitssize : Z := Z.of_nat (List.length units).

(** The [while] loop.  Every iteration increments [currentunit], which the
    guard keeps below [unitssize - 1], so [unitssize - 1] rounds of [fuel]
    are enough (lemma [size2str_loop_exit]). *)
Fixpoint size2str_loop (fuel : nat) (fsize : spec_float) (currentunit : Z)
  : spec_float * Z :=
  if fsize_gt_1024 fsize && (currentunit <? unitssize - 1)%Z then
    match fuel with
    | O => (fsize, currentunit)
    | S fuel' =>
        size2str_loop fuel' (fsize_div_1024 fsize) (currentunit + 1)
    end
  else (fsize, currentunit).

(** [n / d] rounded to the nearest integer, ties to the even one. *)
Definition div_half_even (n d : Z) : Z :=
  let q := n / d in
  match (2 * (n mod d) ?= d) with
  | Lt => q
  | Gt => q + 1
  | Eq => if Z.even q then q else q + 1
  end.

(** The magnitude of a finite value in hundredths, correctly rounded: what
    [std::fixed << std::setprecision(2)] keeps of it (glibc rounds the exact
    binary value to nearest, ties to even). *)
Definition hundredths (m : positive) (e : Z) : Z :=
  div_half_even (Zpos m * 100 * 2 ^ Z.max e 0) (2 ^ Z.max (- e) 0).

Definition decimal (n : Z) : string :=
  NilZero.string_of_uint (N.to_uint (Z.to_N n)).

Definition digit (n : Z) : string :=
  String (ascii_of_N (Z.to_N (48 + n))) EmptyString.

(** A number of hundredths printed with two decimals. *)
Definition print_hundredths (h : Z) : string :=
  decimal (h / 100) ++ "." ++ digit ((h / 10) mod 10) ++ digit (h mod 10).

Definition sign_string (s : bool) : string := if s then "-" else "".

(** [ss << std::fixed << std::setprecision(2) << fsize]. *)
Definition put_fixed2 (x : spec_float) : string :=
  match x with
  | S754_zero s => sign_string s ++ print_hundredths 0
  | S754_infinity s => sign_string s ++ "inf"
  | S754_nan => "nan"
  | S754_finite s m e => sign_string s ++ print_hundredths (hundredths m e)
  end.

Definition size2str (size : Z) : string :=
  let fsize := float_of_off_t size in
  let '(fsize, currentunit) :=
    size2str_loop (Z.to_nat (unitssize - 1)) fsize 0 in
  put_fixed2 fsize ++ " " ++ nth (Z.to_nat currentunit) units "".

(** ** Enumerations

    The enumeration types are declared in headers that are not among the
    sources.  A C++ enumeration object can hold a value that is none of
    its enumerators; the last constructor of each type stands for such a
    value, and is what the [default:] labels catch. *)

(** Modelled from the spec: the declaration of [AttributeEnum], the
    "enumerated attribute identifier" of the attribute dispatch.  The
    enumerators are the case labels of [Package::getattr]. *)
Inductive AttributeEnum : Type :=
| A_NAME | A_VERSION | A_URL | A_REPO | A_PACKAGER | A_BUILDDATE
| A_INSTALLSTATE | A_UPDATESTATE | A_DESC | A_ARCH | A_LICENSES | A_GROUPS
| A_DEPENDS | A_OPTDEPENDS | A_CONFLICTS | A_PROVIDES | A_REPLACES
| A_REQUIREDBY | A_OPTIONALFOR | A_SIGNATURE | A_SIZE | A_ISIZE | A_NONE
| A_other (raw : Z).

(** Modelled from the spec: the declaration of [InstallReasonEnum],
    "Install reason (enumerated: NotInstalled, Explicit, AsDependency)".
    The enumerators are the case labels of [Package::getreason]. *)
Inductive InstallReasonEnum : Type :=
| IRE_NOTINSTALLED | IRE_EXPLICIT | IRE_ASDEPS
| IRE_other (raw : Z).

(** Modelled from the spec: the declaration of [UpdateStateEnum],
    "Update state (enumerated: NotInstalled, UpdateAvailable, UpToDate)".
    The enumerators are the case labels of [Package::getupdatestate]. *)
Inductive UpdateStateEnum : Type :=
| USE_NOTINSTALLED | USE_UPDATEAVAILABLE | USE_UPTODATE
| USE_other (raw : Z).

(** Modelled from the spec: the declaration of [OperationEnum], the
    "pending operation tag", "enumerated externally".  The file only
    stores and returns such a tag, so it is kept as the integer it is. *)
Definition OperationEnum : Type := Z.

Definition enumerated_attribute (a : AttributeEnum) : Prop :=
  match a with A_other _ => False | _ => True end.

Definition enumerated_reason (r : InstallReasonEnum) : Prop :=
  match r with IRE_other _ => False | _ => True end.

Definition enumerated_updatestate (u : UpdateStateEnum) : Prop :=
  match u with USE_other _ => False | _ => True end.

(** ** The libalpm interface that the constructor consumes

    libalpm is an external library: its handles are abstract types and its
    functions are the fields of a class.  A getter that returns a
    [const char *] may return [NULL]; the lists hold non-null items;
    [alpm_list_free] has no effect on values. *)

Class Alpm : Type := {
  alpm_pkg_t : Type;
  alpm_db_t : Type;
  alpm_depend_t : Type;
  ALPM_PKG_REASON_DEPEND : Z;
  alpm_db_get_pkg : alpm_db_t -> option string -> option alpm_pkg_t;
  alpm_db_get_name : option alpm_db_t -> option string;
  alpm_pkg_get_db : alpm_pkg_t -> option alpm_db_t;
  alpm_pkg_get_name : alpm_pkg_t -> option string;
  alpm_pkg_get_url : alpm_pkg_t -> option string;
  alpm_pkg_get_packager : alpm_pkg_t -> option string;
  alpm_pkg_get_desc : alpm_pkg_t -> option string;
  alpm_pkg_get_version : alpm_pkg_t -> option string;
  alpm_pkg_get_arch : alpm_pkg_t -> option string;
  alpm_pkg_get_builddate : alpm_pkg_t -> Z;
  alpm_pkg_get_size : alpm_pkg_t -> Z;
  alpm_pkg_get_isize : alpm_pkg_t -> Z;
  alpm_pkg_get_licenses : alpm_pkg_t -> list string;
  alpm_pkg_get_groups : alpm_pkg_t -> list string;
  alpm_pkg_get_optdepends : alpm_pkg_t -> list alpm_depend_t;
  alpm_pkg_get_conflicts : alpm_pkg_t -> list alpm_depend_t;
  alpm_pkg_get_provides : alpm_pkg_t -> list alpm_depend_t;
  alpm_pkg_get_replaces : alpm_pkg_t -> list alpm_depend_t;
  alpm_pkg_get_depends : alpm_pkg_t -> list alpm_depend_t;
  alpm_pkg_get_base64_sig : alpm_pkg_t -> option string;
  alpm_pkg_get_reason : alpm_pkg_t -> Z;
  alpm_pkg_vercmp : string -> string -> Z;
  alpm_pkg_compute_requiredby : alpm_pkg_t -> list string;
  alpm_pkg_compute_optionalfor : alpm_pkg_t -> list string;
  alpm_dep_compute_string : alpm_depend_t -> string
}.

(** [std::ctime]: the calendar text of a time stamp, with its final
    newline, or [NULL] ([None]) for a time stamp that has no calendar text
    (its year does not fit an [int]). *)
Class Libc : Type := {
  ctime : Z -> option string
}.

(** ** The [Package] object *)

Record Package : Type := mkPackage {
  _name : string;
  _url : string;
  _packager : string;
  _desc : string;
  _version : string;
  _dbname : string;
  _arch : string;
  _licenses : string;
  _groups : string;
  _depends : string;
  _optdepends : string;
  _conflicts : string;
  _provides : string;
  _replaces : string;
  _requiredby : string;
  _optionalfor : string;
  _signature : string;
  _localversion : string;
  _sizestr : string;
  _installsizestr : string;
  _builddate : Z;
  _size : Z;
  _installsize : Z;
  _updatestate : UpdateStateEnum;
  _reason : InstallReasonEnum;
  _colindex : Z;
  op : OperationEnum
}.

Section Constructor.

Context {alpm : Alpm}.

(** What the [else] branch of the constructor computes from the local
    package: local version, update state, required-by and optional-for.
    Assigning a null [const char *] to [_localversion] is undefined, hence
    [None]. *)
Definition local_fields (version : string) (_localpkg : alpm_pkg_t)
  : option (string * UpdateStateEnum * string * string) :=
  match alpm_pkg_get_version _localpkg with
  | None => None
  | Some localversion =>
      let updatestate :=
        if (alpm_pkg_vercmp version localversion >? 0)%Z
        then USE_UPDATEAVAILABLE else USE_UPTODATE in
      let requiredbylist := alpm_pkg_compute_requiredby _localpkg in
      let requiredby := list2str requiredbylist " " in
      let optionalforlist := alpm_pkg_compute_optionalfor _localpkg in
      let optionalfor := list2str optionalforlist " " in
      Some (localversion, updatestate, requiredby, optionalfor)
  end.

(** [Package::Package(pkg, localdb)].  The constructor leaves [_colindex]
    and [op] unassigned; [colindex0] and [op0] are whatever the object
    holds there. *)
Definition Package_new (pkg : alpm_pkg_t) (localdb : alpm_db_t)
  (colindex0 : Z) (op0 : OperationEnum) : option Package :=
  let _pkg := pkg in
  let _localpkg := alpm_db_get_pkg localdb (alpm_pkg_get_name _pkg) in
  let name := trimstr (alpm_pkg_get_name _pkg) in
  let url := trimstr (alpm_pkg_get_url _pkg) in
  let packager := trimstr (alpm_pkg_get_packager _pkg) in
  let desc := trimstr (alpm_pkg_get_desc _pkg) in
  let version := trimstr (alpm_pkg_get_version _pkg) in
  let dbname := trimstr (alpm_db_get_name (alpm_pkg_get_db _pkg)) in
  let builddate := alpm_pkg_get_builddate _pkg in
  let arch := trimstr (alpm_pkg_get_arch _pkg) in
  let size := alpm_pkg_get_size _pkg in
  let installsize := alpm_pkg_get_isize _pkg in
  let sizestr := size2str size in
  let installsizestr := size2str installsize in
  let licenses := list2str (alpm_pkg_get_licenses _pkg) " " in
  let groups := list2str (alpm_pkg_get_groups _pkg) " " in
  let optdepends :=
    deplist2str alpm_dep_compute_string (alpm_pkg_get_optdepends _pkg)
      (String newline "            ") in
  let conflicts :=
    deplist2str alpm_dep_compute_string (alpm_pkg_get_conflicts _pkg) " " in
  let provides :=
    deplist2str alpm_dep_compute_string (alpm_pkg_get_provides _pkg) " " in
  let replaces :=
    deplist2str alpm_dep_compute_string (alpm_pkg_get_replaces _pkg) " " in
  let depends :=
    deplist2str alpm_dep_compute_string (alpm_pkg_get_depends _pkg) " " in
  let signature :=
    match alpm_pkg_get_base64_sig _pkg with
    | Some _ => "Yes"
    | None => "None"
    end in
  let locals :=
    match _localpkg with
    | None => Some ("", USE_NOTINSTALLED, "", "")
    | Some lp => local_fields version lp
    end in
  let reason :=
    match _localpkg with
    | None => IRE_NOTINSTALLED
    | Some lp =>
        if (alpm_pkg_get_reason lp =? ALPM_PKG_REASON_DEPEND)%Z
        then IRE_ASDEPS else IRE_EXPLICIT
    end in
  match locals with
  | None => None
  | Some (localversion, updatestate, requiredby, optionalfor) =>
      Some {| _name := name; _url := url; _packager := packager;
              _desc := desc; _version := version; _dbname := dbname;
              _arch := arch; _licenses := licenses; _groups := groups;
              _depends := depends; _optdepends := optdepends;
              _conflicts := conflicts; _provides := provides;
              _replaces := replaces; _requiredby := requiredby;
              _optionalfor := optionalfor; _signature := signature;
              _localversion := localversion; _sizestr := sizestr;
              _installsizestr := installsizestr; _builddate := builddate;
              _size := size; _installsize := installsize;
              _updatestate := updatestate; _reason := reason;
              _colindex := colindex0; op := op0 |}
  end.

End Constructor.

(** ** Accessors and mutators *)

Definition getname (p : Package) : string := _name p.
Definition getdesc (p : Package) : string := _desc p.

Definition getversion (p : Package) : string :=
  match _updatestate p with
  | USE_UPDATEAVAILABLE => _version p ++ " (local: " ++ _localversion p ++ ")"
  | _ => _version p
  end.

Definition getrepo (p : Package) : string := _dbname p.

Definition getreason (p : Package) : except string :=
  match _reason p with
  | IRE_NOTINSTALLED => Return "not installed"
  | IRE_EXPLICIT => Return "explicit"
  | IRE_ASDEPS => Return "as dependency"
  | IRE_other _ => Throw (mkPcursesException "no package install reason.")
  end.

Definition getpackager (p : Package) : string := _packager p.
Definition geturl (p : Package) : string := _url p.

Definition getbuilddate {libc : Libc} (p : Package) : except string :=
  match ctime (_builddate p) with
  | None => ThrowLogicError
  | Some timestr =>
      Return (StdString.substr timestr 0 (String.length timestr - 1))
  end.

Definition getarch (p : Package) : string := _arch p.
Definition getlicenses (p : Package) : string := _licenses p.
Definition getgroups (p : Package) : string := _groups p.
Definition getdepends (p : Package) : string := _depends p.
Definition getoptdepends (p : Package) : string := _optdepends p.
Definition getconflicts (p : Package) : string := _conflicts p.
Definition getprovides (p : Package) : string := _provides p.
Definition getreplaces (p : Package) : string := _replaces p.
Definition getrequiredby (p : Package) : string := _requiredby p.
Definition getoptionalfor (p : Package) : string := _optionalfor p.
Definition getsignature (p : Package) : string := _signature p.
Definition getsize (p : Package) : string := _sizestr p.
Definition getisize (p : Package) : string := _installsizestr p.

Definition getupdatestate (p : Package) : except string :=
  match _updatestate p with
  | USE_NOTINSTALLED => Return "not installed"
  | USE_UPDATEAVAILABLE => Return "update available"
  | USE_UPTODATE => Return "up to date"
  | USE_other _ => Throw (mkPcursesException "no package update state.")
  end.

Definition invalid_attribute : PcursesException :=
  mkPcursesException "Invalid attribute passed.".

Definition getattr {libc : Libc} (attr : AttributeEnum) (p : Package)
  : except string :=
  match attr with
  | A_NAME => Return (getname p)
  | A_VERSION => Return (getversion p)
  | A_URL => Return (geturl p)
  | A_REPO => Return (getrepo p)
  | A_PACKAGER => Return (getpackager p)
  | A_BUILDDATE => getbuilddate p
  | A_INSTALLSTATE => getreason p
  | A_UPDATESTATE => getupdatestate p
  | A_DESC => Return (getdesc p)
  | A_ARCH => Return (getarch p)
  | A_LICENSES => Return (getlicenses p)
  | A_GROUPS => Return (getgroups p)
  | A_DEPENDS => Return (getdepends p)
  | A_OPTDEPENDS => Return (getoptdepends p)
  | A_CONFLICTS => Return (getconflicts p)
  | A_PROVIDES => Return (getprovides p)
  | A_REPLACES => Return (getreplaces p)
  | A_REQUIREDBY => Return (getrequiredby p)
  | A_OPTIONALFOR => Return (getoptionalfor p)
  | A_SIGNATURE => Return (getsignature p)
  | A_SIZE => Return (getsize p)
  | A_ISIZE => Return (getisize p)
  | A_NONE => Return ""
  | A_other _ => Throw invalid_attribute
  end.

Definition getoffattr (attr : AttributeEnum) (p : Package) : except Z :=
  match attr with
  | A_BUILDDATE => Return (_builddate p)
  | A_SIZE => Return (_size p)
  | A_ISIZE => Return (_installsize p)
  | _ => Throw invalid_attribute
  end.

Definition setcolindex (index : Z) (p : Package) : Package :=
  mkPackage (_name p) (_url p) (_packager p) (_desc p) (_version p)
    (_dbname p) (_arch p) (_licenses p) (_groups p) (_depends p)
    (_optdepends p) (_conflicts p) (_provides p) (_replaces p)
    (_requiredby p) (_optionalfor p) (_signature p) (_localversion p)
    (_sizestr p) (_installsizestr p) (_builddate p) (_size p)
    (_installsize p) (_updatestate p) (_reason p) index (op p).

Definition getcolindex (p : Package) : Z := _colindex p.

Definition setop (oe : OperationEnum) (p : Package) : Package :=
  mkPackage (_name p) (_url p) (_packager p) (_desc p) (_version p)
    (_dbname p) (_arch p) (_licenses p) (_groups p) (_depends p)
    (_optdepends p) (_conflicts p) (_provides p) (_replaces p)
    (_requiredby p) (_optionalfor p) (_signature p) (_localversion p)
    (_sizestr p) (_installsizestr p) (_builddate p) (_size p)
    (_installsize p) (_updatestate p) (_reason p) (_colindex p) oe.

Definition getop (p : Package) : OperationEnum := op p.

(** ** A small libalpm for the examples

    Packages are plain records, the local database is a list searched by
    name, a dependency is its own text, and versions are compared as
    strings. *)

Record sample_pkg : Type := mkSamplePkg {
  s_name : option string;
  s_version : option string;
  s_reason : Z;
  s_size : Z;
  s_depends : list string;
  s_requiredby : list string;
  s_builddate : Z
}.

Definition sample_db_get_pkg (db : list sample_pkg) (name : option string)
  : option sample_pkg :=
  match name with
  | None => None
  | Some n =>
      find (fun q => match s_name q with
                     | Some m => String.eqb n m
                     | None => false
                     end) db
  end.

Definition sample_vercmp (a b : string) : Z :=
  match String.compare a b with
  | Lt => -1
  | Eq => 0
  | Gt => 1
  end.

#[local] Instance sample_alpm : Alpm := {|
  alpm_pkg_t := sample_pkg;
  alpm_db_t := list sample_pkg;
  alpm_depend_t := string;
  ALPM_PKG_REASON_DEPEND := 1;
  alpm_db_get_pkg := sample_db_get_pkg;
  alpm_db_get_name := fun _ => Some "core";
  alpm_pkg_get_db := fun _ => None;
  alpm_pkg_get_name := s_name;
  alpm_pkg_get_url := fun _ => None;
  alpm_pkg_get_packager := fun _ => Some "  A. Packager ";
  alpm_pkg_get_desc := fun _ => Some "";
  alpm_pkg_get_version := s_version;
  alpm_pkg_get_arch := fun _ => Some "x86_64";
  alpm_pkg_get_builddate := s_builddate;
  alpm_pkg_get_size := s_size;
  alpm_pkg_get_isize := fun q => 4 * s_size q;
  alpm_pkg_get_licenses := fun _ => ["GPL"; "MIT"];
  alpm_pkg_get_groups := fun _ => [];
  alpm_pkg_get_optdepends := fun _ => [];
  alpm_pkg_get_conflicts := fun _ => [];
  alpm_pkg_get_provides := fun _ => [];
  alpm_pkg_get_replaces := fun _ => [];
  alpm_pkg_get_depends := s_depends;
  alpm_pkg_get_base64_sig := fun _ => None;
  alpm_pkg_get_reason := s_reason;
  alpm_pkg_vercmp := sample_vercmp;
  alpm_pkg_compute_requiredby := s_requiredby;
  alpm_pkg_compute_optionalfor := fun _ => [];
  alpm_dep_compute_string := fun d => d
|}.

(** A [std::ctime] after that of glibc: no text when the year of the time
    stamp does not fit an [int]; the text itself is not computed. *)
Definition sample_ctime (t : Z) : option string :=
  if (-67768040609740800 <=? t) && (t <=? 67768036191676799)
  then Some ("Thu Jan  1 00:00:00 1970" ++ String newline "")
  else None.

#[local] Instance sample_libc : Libc := {|
  ctime := sample_ctime
|}.

(** [foo 2.0] in a repository, [foo 1.0] installed as a dependency, and
    [bar], which is not installed. *)
Definition foo_remote : sample_pkg :=
  mkSamplePkg (Some "foo") (Some "2.0") 0 1536 ["glibc"; "bar>=1"] [] 0.

Definition foo_local : sample_pkg :=
  mkSamplePkg (Some "foo") (Some "1.0") 1 1024 ["glibc"] ["baz"; "qux"] 0.

Definition foo_same : sample_pkg :=
  mkSamplePkg (Some "foo") (Some "1.0") 0 1024 ["glibc"] [] 0.

Definition bar_remote : sample_pkg :=
  mkSamplePkg (Some " bar ") (Some "0.3") 0 0 [] [] 0.

(** A package whose build date, [2^62] seconds, has no calendar text. *)
Definition far_future : sample_pkg :=
  mkSamplePkg (Some "far") (Some "1.0") 0 2048 [] [] (2 ^ 62).

Definition sample_localdb : list sample_pkg := [foo_local].

Definition sample_Package (pkg : sample_pkg) (localdb : list sample_pkg)
  : option Package :=
  Package_new (alpm := sample_alpm) pkg localdb 0 0.

(** ** Predicates used to state the properties *)

Definition starts_with_space (s : string) : Prop :=
  match s with
  | EmptyString => False
  | String c _ => is_space c
  end.

Fixpoint ends_with_space (s : string) : Prop :=
  match s with
  | EmptyString => False
  | String c EmptyString => is_space c
  | String _ s' => ends_with_space s'
  end.

(** ** The value that [size2str] prints, in integers *)

(** The binary32 number nearest to the integer [b], ties to even: [b]
    itself below [2^24], and otherwise [b] rounded to a multiple of the
    power of two that leaves 24 significant bits. *)
Definition nearest24 (b : Z) : Z :=
  let n := Z.max 0 (Z.log2 b - 23) in
  div_half_even b (2 ^ n) * 2 ^ n.

(** The index of the unit: the number of times that the value can be
    divided by 1024 while it exceeds 1024, at most four times. *)
Definition unit_index (F : Z) : nat :=
  if F <=? 1024 then 0%nat
  else if F <=? 1024 ^ 2 then 1%nat
  else if F <=? 1024 ^ 3 then 2%nat
  else if F <=? 1024 ^ 4 then 3%nat
  else 4%nat.

(** The printed number, in hundredths, and the printed unit. *)
Definition size_hundredths (b : Z) : Z :=
  let F := nearest24 b in
  div_half_even (100 * F) (1024 ^ Z.of_nat (unit_index F)).

Definition size_unit (b : Z) : string :=
  nth (unit_index (nearest24 b)) units "".

(** [b'] is a byte count read back from what [size2str b] prints: the
    printed number, multiplied by 1024 once for each unit step.  Where
    that product is not a whole number of bytes, [b'] is one of the two
    integers next to it. *)
Definition reads_back (b b' : Z) : Prop :=
  -100
  < 100 * b' - size_hundredths b * 1024 ^ Z.of_nat (unit_index (nearest24 b))
  < 100.

(** ** Further predicates *)

(** A string without white space at either end. *)
Definition trimmed (s : string) : Prop :=
  ~ starts_with_space s /\ ~ ends_with_space s.

(** The [Package] objects that a program can hold: built by the
    constructor, then changed by the two mutators any number of times. *)
Inductive reachable {alpm : Alpm} : Package -> Prop :=
| reachable_new (pkg : alpm_pkg_t) (localdb : alpm_db_t) (colindex0 : Z)
    (op0 : OperationEnum) (p : Package) :
    Package_new pkg localdb colindex0 op0 = Some p -> reachable p
| reachable_setcolindex (index : Z) (p : Package) :
    reachable p -> reachable (setcolindex index p)
| reachable_setop (oe : OperationEnum) (p : Package) :
    reachable p -> reachable (setop oe p).

(** The number of characters of all items together. *)
Definition total_length (l : list string) : nat :=
  list_sum (map String.length l).

(** * Properties *)

(** ** Strings *)

Lemma append_nil_r (s : string) : s ++ "" = s.
Proof. induction s as [|c s IH]; simpl; congruence. Qed.

Lemma append_assoc (s t u : string) : (s ++ t) ++ u = s ++ (t ++ u).
Proof. induction s as [|c s IH]; simpl; congruence. Qed.

Lemma length_append (s t : string) :
  String.length (s ++ t) = (String.length s + String.length t)%nat.
Proof. induction s as [|c s IH]; simpl; congruence. Qed.

Lemma all_space_append (s t : string) :
  all_space s -> all_space t -> all_space (s ++ t).
Proof. induction s as [|c s IH]; simpl; intuition. Qed.

Lemma substring_skip (pre t : string) (n : nat) :
  substring (String.length pre) n (pre ++ t) = substring 0 n t.
Proof. induction pre as [|c pre IH]; simpl; auto. Qed.

Lemma substring_prefix (m post : string) :
  substring 0 (String.length m) (m ++ post) = m.
Proof.
  induction m as [|c m IH]; simpl.
  - destruct post; reflexivity.
  - now rewrite IH.
Qed.

(** ** Joining lists *)

Lemma list2str_loop_false (i : list string) (delim res : string) :
  list2str_loop false i delim res
  = res ++ match i with
           | [] => ""
           | _ :: _ => delim ++ join delim i
           end.
Proof.
  revert res; induction i as [|s next IH]; intros res; simpl.
  - now rewrite append_nil_r.
  - rewrite IH. destruct next as [|s' next'].
    + now rewrite append_nil_r, append_assoc.
    + now rewrite !append_assoc.
Qed.

Lemma list2str_join (l : list string) (delim : string) :
  list2str l delim = join delim l.
Proof.
  unfold list2str. destruct l as [|s next]; simpl; [reflexivity|].
  rewrite list2str_loop_false. destruct next; simpl; auto using append_nil_r.
Qed.

Lemma deplist2str_loop_join {D : Type} (f : D -> string) (deps : list D)
  (delim res : string) :
  deplist2str_loop D f deps delim res = res ++ join delim (map f deps).
Proof.
  revert res; induction deps as [|d next IH]; intros res; simpl.
  - now rewrite append_nil_r.
  - rewrite IH. destruct next as [|d' next']; simpl.
    + now rewrite append_nil_r.
    + now rewrite !append_assoc.
Qed.

Lemma deplist2str_join {D : Type} (f : D -> string) (deps : list D)
  (delim : string) :
  deplist2str f deps delim = join delim (map f deps).
Proof. unfold deplist2str. now rewrite deplist2str_loop_join. Qed.

(** C10.  [list2str] and [deplist2str] give the empty string for the empty
    list, the item alone for a one-element list, and for a longer list the
    first item, one delimiter, and the joined rest; that is, both are
    [join]: the items in list order with exactly one delimiter between two
    neighbours and none at either end. *)
Theorem list2str_deplist2str_delimited :
  forall (D : Type) (f : D -> string) (delim : string),
    (list2str [] delim = "" /\ deplist2str f [] delim = "")
    /\ (forall x, list2str [x] delim = x)
    /\ (forall d, deplist2str f [d] delim = f d)
    /\ (forall x y r,
          list2str (x :: y :: r) delim
          = x ++ delim ++ list2str (y :: r) delim)
    /\ (forall d e r,
          deplist2str f (d :: e :: r) delim
          = f d ++ delim ++ deplist2str f (e :: r) delim)
    /\ (forall l, list2str l delim = join delim l)
    /\ (forall deps, deplist2str f deps delim = join delim (map f deps)).
Proof.
  intros D f delim. repeat split; intros;
    rewrite ?list2str_join, ?deplist2str_join; reflexivity.
Qed.

(** ** Trimming *)

(** Unfolds the string functions one step and leaves the literal
    [whitespace] folded. *)
Ltac string_step :=
  cbn [StdString.find_first_not_of StdString.find_last_not_of option_map
       append String.length all_space].

Lemma mem_whitespace (c : ascii) :
  StdString.mem c whitespace = true <-> is_space c.
Proof.
  unfold whitespace, is_space; simpl.
  rewrite !orb_true_iff, !Ascii.eqb_eq. intuition discriminate.
Qed.

Lemma mem_whitespace_false (c : ascii) :
  StdString.mem c whitespace = false <-> ~ is_space c.
Proof.
  rewrite <- mem_whitespace. destruct (StdString.mem c whitespace);
    intuition congruence.
Qed.

(** [find_first_not_of] splits the string into a run of white space and a
    rest that starts with another character. *)
Lemma find_first_not_of_some (s : string) (i : nat) :
  StdString.find_first_not_of s whitespace = Some i ->
  exists pre c rest,
    s = pre ++ String c rest /\ String.length pre = i
    /\ all_space pre /\ ~ is_space c.
Proof.
  revert i; induction s as [|a s IH]; intros i; string_step; [discriminate|].
  destruct (StdString.mem a whitespace) eqn:Ha.
  - destruct (StdString.find_first_not_of s whitespace) as [j|];
      string_step; [|discriminate].
    intros [= <-]. destruct (IH j eq_refl) as (pre & c & rest & -> & <- & Hp & Hc).
    exists (String a pre), c, rest. string_step. rewrite mem_whitespace in Ha. auto.
  - intros [= <-]. exists "", a, s. string_step.
    rewrite mem_whitespace_false in Ha. auto.
Qed.

Lemma find_first_not_of_none (s : string) :
  StdString.find_first_not_of s whitespace = None <-> all_space s.
Proof.
  induction s as [|a s IH]; string_step; [tauto|].
  destruct (StdString.mem a whitespace) eqn:Ha.
  - rewrite mem_whitespace in Ha.
    destruct (StdString.find_first_not_of s whitespace); simpl option_map in *;
      intuition discriminate.
  - rewrite mem_whitespace_false in Ha. intuition discriminate.
Qed.

Lemma find_last_not_of_none (s : string) :
  StdString.find_last_not_of s whitespace = None <-> all_space s.
Proof.
  induction s as [|a s IH]; string_step; [tauto|].
  destruct (StdString.find_last_not_of s whitespace).
  - intuition discriminate.
  - destruct (StdString.mem a whitespace) eqn:Ha.
    + rewrite mem_whitespace in Ha. intuition.
    + rewrite mem_whitespace_false in Ha. intuition discriminate.
Qed.

(** [find_last_not_of] splits the string into a part that ends with a
    character other than white space and a run of white space. *)
Lemma find_last_not_of_some (s : string) (j : nat) :
  StdString.find_last_not_of s whitespace = Some j ->
  exists r c post,
    s = (r ++ String c "") ++ post /\ String.length r = j
    /\ all_space post /\ ~ is_space c.
Proof.
  revert j; induction s as [|a s IH]; intros j; string_step; [discriminate|].
  destruct (StdString.find_last_not_of s whitespace) as [k|] eqn:Hk.
  - intros [= <-]. destruct (IH k eq_refl) as (r & c & post & -> & <- & Hp & Hc).
    exists (String a r), c, post. string_step. auto.
  - destruct (StdString.mem a whitespace) eqn:Ha; [discriminate|].
    intros [= <-]. exists "", a, s. string_step.
    rewrite mem_whitespace_false in Ha. rewrite find_last_not_of_none in Hk.
    auto.
Qed.

Lemma find_last_not_of_append (pre t : string) (j : nat) :
  StdString.find_last_not_of t whitespace = Some j ->
  StdString.find_last_not_of (pre ++ t) whitespace
  = Some (String.length pre + j)%nat.
Proof.
  intros Ht. induction pre as [|a pre IH]; string_step; [assumption|].
  now rewrite IH.
Qed.

Lemma find_last_not_of_head (c : ascii) (rest : string) :
  ~ is_space c ->
  exists j, StdString.find_last_not_of (String c rest) whitespace = Some j.
Proof.
  intros Hc. string_step.
  destruct (StdString.find_last_not_of rest whitespace); eauto.
  apply mem_whitespace_false in Hc. rewrite Hc. eauto.
Qed.

Lemma ends_with_space_snoc (r : string) (d : ascii) :
  ends_with_space (r ++ String d "") <-> is_space d.
Proof.
  induction r as [|a r IH]; simpl; [tauto|].
  destruct (r ++ String d "") eqn:E; [|assumption].
  destruct r; discriminate.
Qed.

Lemma trimstr_all_space (s : string) :
  all_space s -> trimstr (Some s) = "".
Proof.
  intros H. apply find_first_not_of_none in H. unfold trimstr.
  now rewrite H.
Qed.

(** From the first character that is not white space on, [trimstr] keeps
    everything up to the last such character. *)
Lemma trimstr_split (s : string) (i : nat) :
  StdString.find_first_not_of s whitespace = Some i ->
  exists pre c r d post,
    s = pre ++ (r ++ String d "") ++ post
    /\ trimstr (Some s) = r ++ String d ""
    /\ (exists m, r ++ String d "" = String c m)
    /\ all_space pre /\ all_space post /\ ~ is_space c /\ ~ is_space d.
Proof.
  intros Hi.
  destruct (find_first_not_of_some s i Hi)
    as (pre & c & rest & Hs & Hlen & Hpre & Hc).
  destruct (find_last_not_of_head c rest Hc) as [j Hj].
  destruct (find_last_not_of_some _ j Hj)
    as (r & d & post & Ht & Hr & Hpost & Hd).
  exists pre, c, r, d, post. repeat split; auto.
  - now rewrite Hs, Ht.
  - unfold trimstr. rewrite Hi. subst s.
    rewrite (find_last_not_of_append pre _ j Hj), Hlen.
    replace (i + j - i + 1)%nat with (String.length (r ++ String d ""))
      by (rewrite length_append; simpl; lia).
    unfold StdString.substr. rewrite <- Hlen, substring_skip, Ht.
    apply substring_prefix.
  - destruct r as [|a r]; simpl in *; injection Ht as -> _; eauto.
Qed.

(** C5.  [trimstr] removes white space (space, tab, newline) at both ends
    and nothing else: the input is a run of white space, the result, and a
    run of white space, and the result neither starts nor ends with white
    space; an input of white space only, and the null pointer, give the
    empty string. *)
Theorem trimstr_trims :
  forall s : string,
    (exists pre post,
        s = pre ++ trimstr (Some s) ++ post
        /\ all_space pre /\ all_space post)
    /\ ~ starts_with_space (trimstr (Some s))
    /\ ~ ends_with_space (trimstr (Some s))
    /\ (all_space s -> trimstr (Some s) = "")
    /\ trimstr None = "".
Proof.
  intros s.
  destruct (StdString.find_first_not_of s whitespace) as [i|] eqn:Hi.
  - destruct (trimstr_split s i Hi)
      as (pre & c & r & d & post & Hs & Ht & [m Hm] & Hpre & Hpost & Hc & Hd).
    repeat split.
    + exists pre, post. rewrite Ht. auto.
    + rewrite Ht, Hm. exact Hc.
    + rewrite Ht, ends_with_space_snoc. exact Hd.
    + apply trimstr_all_space.
  - apply find_first_not_of_none in Hi.
    rewrite (trimstr_all_space s Hi). split.
    + exists s, ""; simpl; rewrite ?append_nil_r; auto.
    + simpl. tauto.
Qed.

Lemma trimstr_trims_witness :
  all_space (String tab " ")
  /\ trimstr (Some (String tab " ")) = ""
  /\ ~ starts_with_space (trimstr (Some (String tab "  a b ")))
  /\ ~ ends_with_space (trimstr (Some (String tab "  a b "))).
Proof.
  assert (H : all_space (String tab " "))
    by (simpl; unfold is_space; auto).
  split; [exact H|]. split.
  - exact (proj1 (proj2 (proj2 (proj2 (trimstr_trims _)))) H).
  - split.
    + exact (proj1 (proj2 (trimstr_trims (String tab "  a b ")))).
    + exact (proj1 (proj2 (proj2 (trimstr_trims (String tab "  a b "))))).
Defined.

(** ** Construction *)

Section Constructed.

Context {alpm : Alpm}.

Variables (pkg : alpm_pkg_t) (localdb : alpm_db_t).
Variables (colindex0 : Z) (op0 : OperationEnum).

(** The fields of a constructed [Package] when the package is not in the
    local database. *)
Lemma Package_new_notinstalled (p : Package) :
  Package_new pkg localdb colindex0 op0 = Some p ->
  alpm_db_get_pkg localdb (alpm_pkg_get_name pkg) = None ->
  _updatestate p = USE_NOTINSTALLED /\ _reason p = IRE_NOTINSTALLED
  /\ _localversion p = "" /\ _requiredby p = "" /\ _optionalfor p = "".
Proof.
  unfold Package_new. intros Hp Hl. rewrite Hl in Hp.
  injection Hp as <-. simpl. auto.
Qed.

(** ... and when it is. *)
Lemma Package_new_installed (p : Package) (lp : alpm_pkg_t) :
  Package_new pkg localdb colindex0 op0 = Some p ->
  alpm_db_get_pkg localdb (alpm_pkg_get_name pkg) = Some lp ->
  alpm_pkg_get_version lp = Some (_localversion p)
  /\ _version p = trimstr (alpm_pkg_get_version pkg)
  /\ _updatestate p
     = (if alpm_pkg_vercmp (_version p) (_localversion p) >? 0
        then USE_UPDATEAVAILABLE else USE_UPTODATE)
  /\ _reason p
     = (if alpm_pkg_get_reason lp =? ALPM_PKG_REASON_DEPEND
        then IRE_ASDEPS else IRE_EXPLICIT).
Proof.
  unfold Package_new, local_fields. intros Hp Hl. rewrite Hl in Hp.
  destruct (alpm_pkg_get_version lp) as [lv|]; [|discriminate].
  injection Hp as <-. simpl. auto.
Qed.

(** The constructor completes unless the local package has no version
    string. *)
Lemma Package_new_total :
  (forall lp,
      alpm_db_get_pkg localdb (alpm_pkg_get_name pkg) = Some lp ->
      alpm_pkg_get_version lp <> None) ->
  exists p, Package_new pkg localdb colindex0 op0 = Some p.
Proof.
  intros H. unfold Package_new, local_fields.
  destruct (alpm_db_get_pkg localdb (alpm_pkg_get_name pkg)) as [lp|];
    [|eauto].
  specialize (H lp eq_refl).
  destruct (alpm_pkg_get_version lp); [eauto|congruence].
Qed.

End Constructed.

(** C2.  For a constructed [Package]: with no package of that name in the
    local database the update state is NotInstalled; otherwise it is
    UpdateAvailable when [alpm_pkg_vercmp] of the version and the local
    version is greater than 0, and UpToDate when it is not -- as for equal
    version strings, which [alpm_pkg_vercmp] does not rank above each
    other. *)
Theorem Package_updatestate :
  forall (alpm : Alpm) (pkg : alpm_pkg_t) (localdb : alpm_db_t)
         (colindex0 : Z) (op0 : OperationEnum) (p : Package),
    Package_new pkg localdb colindex0 op0 = Some p ->
    (alpm_db_get_pkg localdb (alpm_pkg_get_name pkg) = None ->
     _updatestate p = USE_NOTINSTALLED)
    /\ (forall lp,
          alpm_db_get_pkg localdb (alpm_pkg_get_name pkg) = Some lp ->
          _version p = trimstr (alpm_pkg_get_version pkg)
          /\ alpm_pkg_get_version lp = Some (_localversion p)
          /\ (alpm_pkg_vercmp (_version p) (_localversion p) > 0 ->
              _updatestate p = USE_UPDATEAVAILABLE)
          /\ (alpm_pkg_vercmp (_version p) (_localversion p) <= 0 ->
              _updatestate p = USE_UPTODATE)
          /\ (_version p = _localversion p ->
              alpm_pkg_vercmp (_version p) (_version p) <= 0 ->
              _updatestate p = USE_UPTODATE)).
Proof.
  intros alpm pkg localdb colindex0 op0 p Hp. split.
  - intros Hl. now apply (Package_new_notinstalled _ _ _ _ p Hp Hl).
  - intros lp Hl.
    destruct (Package_new_installed _ _ _ _ p lp Hp Hl)
      as (Hlv & Hv & Hu & _).
    repeat split; auto; rewrite Hu.
    + intros H. apply Z.gtb_gt in H. now rewrite H.
    + intros H. destruct (Z.gtb_spec (alpm_pkg_vercmp (_version p)
                                        (_localversion p)) 0); [lia|auto].
    + intros <- H. destruct (Z.gtb_spec (alpm_pkg_vercmp (_version p)
                                           (_version p)) 0); [lia|auto].
Qed.

Lemma Package_updatestate_witness :
  (exists p, sample_Package foo_remote sample_localdb = Some p
             /\ _updatestate p = USE_UPDATEAVAILABLE)
  /\ (exists p, sample_Package bar_remote sample_localdb = Some p
                /\ _updatestate p = USE_NOTINSTALLED)
  /\ (exists p, sample_Package foo_same sample_localdb = Some p
                /\ _updatestate p = USE_UPTODATE).
Proof.
  split; [|split]; (eexists; split; [reflexivity|]).
  - refine (proj1 (proj2 (proj2 (proj2
      (Package_updatestate sample_alpm foo_remote sample_localdb 0 0 _
         eq_refl) foo_local eq_refl))) _).
    reflexivity.
  - refine (proj1
      (Package_updatestate sample_alpm bar_remote sample_localdb 0 0 _
         eq_refl) _).
    reflexivity.
  - refine (proj2 (proj2 (proj2 (proj2 (proj2
      (Package_updatestate sample_alpm foo_same sample_localdb 0 0 _
         eq_refl) foo_local eq_refl)))) _ _).
    + reflexivity.
    + discriminate.
Defined.

(** C3.  For a constructed [Package]: with no package of that name in the
    local database the install reason is NotInstalled; with a local entry
    whose recorded reason is [ALPM_PKG_REASON_DEPEND] it is AsDependency;
    with a local entry of any other recorded reason it is Explicit. *)
Theorem Package_reason :
  forall (alpm : Alpm) (pkg : alpm_pkg_t) (localdb : alpm_db_t)
         (colindex0 : Z) (op0 : OperationEnum) (p : Package),
    Package_new pkg localdb colindex0 op0 = Some p ->
    (alpm_db_get_pkg localdb (alpm_pkg_get_name pkg) = None ->
     _reason p = IRE_NOTINSTALLED)
    /\ (forall lp,
          alpm_db_get_pkg localdb (alpm_pkg_get_name pkg) = Some lp ->
          (alpm_pkg_get_reason lp = ALPM_PKG_REASON_DEPEND ->
           _reason p = IRE_ASDEPS)
          /\ (alpm_pkg_get_reason lp <> ALPM_PKG_REASON_DEPEND ->
              _reason p = IRE_EXPLICIT)).
Proof.
  intros alpm pkg localdb colindex0 op0 p Hp. split.
  - intros Hl. now apply (Package_new_notinstalled _ _ _ _ p Hp Hl).
  - intros lp Hl.
    destruct (Package_new_installed _ _ _ _ p lp Hp Hl)
      as (_ & _ & _ & Hr).
    rewrite Hr. split; intros H.
    + apply Z.eqb_eq in H. now rewrite H.
    + apply Z.eqb_neq in H. now rewrite H.
Qed.

Lemma Package_reason_witness :
  (exists p, sample_Package foo_remote sample_localdb = Some p
             /\ _reason p = IRE_ASDEPS)
  /\ (exists p, sample_Package bar_remote sample_localdb = Some p
                /\ _reason p = IRE_NOTINSTALLED)
  /\ (exists p, sample_Package foo_remote [foo_same] = Some p
                /\ _reason p = IRE_EXPLICIT).
Proof.
  split; [|split]; (eexists; split; [reflexivity|]).
  - refine (proj1 (proj2
      (Package_reason sample_alpm foo_remote sample_localdb 0 0 _
         eq_refl) foo_local eq_refl) _).
    reflexivity.
  - refine (proj1
      (Package_reason sample_alpm bar_remote sample_localdb 0 0 _
         eq_refl) _).
    reflexivity.
  - refine (proj2 (proj2
      (Package_reason sample_alpm foo_remote [foo_same] 0 0 _
         eq_refl) foo_same eq_refl) _).
    discriminate.
Defined.

(** ** Attribute dispatch *)

(** C4.  [getattr A_NONE] is the empty string for every [Package];
    [getattr] throws the invalid-attribute exception for a value that is
    none of the enumerators; [getoffattr] throws the same exception for
    every attribute other than [A_BUILDDATE], [A_SIZE] and [A_ISIZE] --
    [A_NAME] for one -- and returns the number stored for these three. *)
Theorem getattr_getoffattr_dispatch :
  forall (libc : Libc) (p : Package),
    getattr A_NONE p = Return ""
    /\ (forall a, ~ enumerated_attribute a ->
                  getattr a p = Throw invalid_attribute)
    /\ (forall a, a <> A_BUILDDATE -> a <> A_SIZE -> a <> A_ISIZE ->
                  getoffattr a p = Throw invalid_attribute)
    /\ getoffattr A_NAME p = Throw invalid_attribute
    /\ getoffattr A_BUILDDATE p = Return (_builddate p)
    /\ getoffattr A_SIZE p = Return (_size p)
    /\ getoffattr A_ISIZE p = Return (_installsize p)
    /\ (forall a n, getoffattr a p = Return n ->
                    a = A_BUILDDATE \/ a = A_SIZE \/ a = A_ISIZE).
Proof.
  intros libc p. repeat split.
  - intros a Ha. destruct a; simpl in Ha; tauto || reflexivity.
  - intros a H1 H2 H3. destruct a; try reflexivity; congruence.
  - intros a n H. destruct a; simpl in H; try discriminate; auto.
Qed.

Lemma getattr_getoffattr_dispatch_witness :
  exists p, sample_Package foo_remote sample_localdb = Some p
            /\ getattr A_NONE p = Return ""
            /\ getattr (A_other 99) p = Throw invalid_attribute
            /\ getoffattr A_VERSION p = Throw invalid_attribute
            /\ getoffattr A_SIZE p = Return 1536.
Proof.
  eexists. split; [reflexivity|].
  match goal with
  | |- getattr _ ?p = _ /\ _ =>
      destruct (getattr_getoffattr_dispatch sample_libc p)
        as (H1 & H2 & H3 & _ & _ & H4 & _)
  end.
  split; [exact H1|]. split; [|split].
  - apply H2. simpl. tauto.
  - apply H3; discriminate.
  - exact H4.
Defined.

(** ** The version accessor *)

Lemma append_eq_self (s t : string) : s ++ t = s -> t = "".
Proof.
  induction s as [|c s IH]; simpl; [auto|].
  intros [= H]. auto.
Qed.

(** C6.  [getversion] returns the version, [" (local: "], the local
    version and [")"] exactly when the update state is UpdateAvailable, and
    the stored version unchanged in every other state; the package
    [foo 2.0] with [foo 1.0] installed shows ["2.0 (local: 1.0)"]. *)
Theorem getversion_local :
  forall p : Package,
    (_updatestate p = USE_UPDATEAVAILABLE ->
     getversion p = _version p ++ " (local: " ++ _localversion p ++ ")")
    /\ (_updatestate p <> USE_UPDATEAVAILABLE ->
        getversion p = _version p)
    /\ (getversion p = _version p ++ " (local: " ++ _localversion p ++ ")"
        <-> _updatestate p = USE_UPDATEAVAILABLE)
    /\ (exists q, sample_Package foo_remote sample_localdb = Some q
                  /\ _version q = "2.0" /\ _localversion q = "1.0"
                  /\ _updatestate q = USE_UPDATEAVAILABLE
                  /\ getversion q = "2.0 (local: 1.0)").
Proof.
  intros p. unfold getversion. repeat split.
  - intros ->. reflexivity.
  - intros H. destruct (_updatestate p); congruence.
  - intros H. destruct (_updatestate p); try reflexivity;
      symmetry in H; apply append_eq_self in H; discriminate.
  - intros ->. reflexivity.
  - eexists. split; [reflexivity|]. repeat split.
Qed.

Lemma getversion_local_witness :
  exists q, sample_Package foo_remote sample_localdb = Some q
            /\ getversion q = "2.0 (local: 1.0)"
            /\ exists r, sample_Package foo_same sample_localdb = Some r
                         /\ getversion r = "1.0".
Proof.
  eexists. split; [reflexivity|]. split.
  - refine (proj1 (getversion_local _) _). reflexivity.
  - eexists. split; [reflexivity|].
    refine (proj1 (proj2 (getversion_local _)) _). discriminate.
Defined.

(** ** Reason and update state as text *)

(** C8.  [getreason] and [getupdatestate] give each enumerator its label
    and throw exactly for a value that is none of the enumerators; the
    constructor stores enumerators only, so on a constructed [Package]
    neither throws, [getattr] throws no [PcursesException] for an
    enumerated attribute, and it returns a string for every enumerated
    attribute other than [A_BUILDDATE].  For [A_BUILDDATE] the claim
    fails: [getbuilddate] does not test the pointer that [std::ctime]
    returns, and when that is null [getattr] ends in [std::logic_error];
    a package built [2^62] seconds after the epoch shows it. *)
Theorem getreason_getupdatestate_labels :
  (forall p : Package,
      (_reason p = IRE_NOTINSTALLED -> getreason p = Return "not installed")
      /\ (_reason p = IRE_EXPLICIT -> getreason p = Return "explicit")
      /\ (_reason p = IRE_ASDEPS -> getreason p = Return "as dependency")
      /\ (raises (getreason p) <-> ~ enumerated_reason (_reason p))
      /\ (_updatestate p = USE_NOTINSTALLED ->
          getupdatestate p = Return "not installed")
      /\ (_updatestate p = USE_UPDATEAVAILABLE ->
          getupdatestate p = Return "update available")
      /\ (_updatestate p = USE_UPTODATE ->
          getupdatestate p = Return "up to date")
      /\ (raises (getupdatestate p)
          <-> ~ enumerated_updatestate (_updatestate p)))
  /\ (forall (alpm : Alpm) (libc : Libc) (pkg : alpm_pkg_t)
             (localdb : alpm_db_t) (colindex0 : Z) (op0 : OperationEnum)
             (p : Package),
         Package_new pkg localdb colindex0 op0 = Some p ->
         enumerated_reason (_reason p)
         /\ enumerated_updatestate (_updatestate p)
         /\ ~ raises (getreason p)
         /\ ~ raises (getupdatestate p)
         /\ (forall a, enumerated_attribute a -> ~ raises (getattr a p))
         /\ (forall a, enumerated_attribute a -> a <> A_BUILDDATE ->
                       exists s, getattr a p = Return s)
         /\ (ctime (alpm_pkg_get_builddate pkg) = None ->
             getattr A_BUILDDATE p = ThrowLogicError))
  /\ (exists p, sample_Package far_future sample_localdb = Some p
                /\ enumerated_attribute A_BUILDDATE
                /\ getoffattr A_BUILDDATE p = Return (2 ^ 62)
                /\ getattr (libc := sample_libc) A_BUILDDATE p
                   = ThrowLogicError).
Proof.
  split; [|split].
  - intros p. unfold getreason, getupdatestate, raises.
    repeat split; try (intros ->; reflexivity).
    + intros [e H]. destruct (_reason p); simpl; try discriminate; tauto.
    + intros H. destruct (_reason p); simpl in H; try tauto; eauto.
    + intros [e H]. destruct (_updatestate p); simpl; try discriminate; tauto.
    + intros H. destruct (_updatestate p); simpl in H; try tauto; eauto.
  - intros alpm libc pkg localdb colindex0 op0 p Hp.
    assert (Hr : enumerated_reason (_reason p)
                 /\ enumerated_updatestate (_updatestate p)
                 /\ _builddate p = alpm_pkg_get_builddate pkg).
    { destruct (alpm_db_get_pkg localdb (alpm_pkg_get_name pkg))
        as [lp|] eqn:Hl.
      - destruct (Package_new_installed _ _ _ _ p lp Hp Hl)
          as (_ & _ & Hu & Hre).
        rewrite Hu, Hre. split; [|split].
        + destruct (_ =? _); exact I.
        + destruct (_ >? _); exact I.
        + unfold Package_new, local_fields in Hp. rewrite Hl in Hp.
          destruct (alpm_pkg_get_version lp); [|discriminate].
          now injection Hp as <-.
      - destruct (Package_new_notinstalled _ _ _ _ p Hp Hl)
          as (Hu & Hre & _).
        rewrite Hu, Hre. split; [exact I|split; [exact I|]].
        unfold Package_new in Hp. rewrite Hl in Hp.
        now injection Hp as <-. }
    destruct Hr as (Hr & Hu & Hb). unfold raises.
    assert (Gr : exists s, getreason p = Return s)
      by (unfold getreason; destruct (_reason p); simpl in Hr;
          try tauto; eauto).
    assert (Gu : exists s, getupdatestate p = Return s)
      by (unfold getupdatestate; destruct (_updatestate p); simpl in Hu;
          try tauto; eauto).
    destruct Gr as [sr Gr]. destruct Gu as [su Gu].
    repeat split; auto.
    + intros [e H]. congruence.
    + intros [e H]. congruence.
    + intros a Ha [e H].
      destruct a; simpl in Ha; try tauto; cbn [getattr] in H;
        try congruence.
      unfold getbuilddate in H. destruct (ctime (_builddate p)); discriminate.
    + intros a Ha Hn.
      destruct a; simpl in Ha; try tauto; cbn [getattr]; eauto; congruence.
    + intros Hc. cbn [getattr]. unfold getbuilddate. now rewrite Hb, Hc.
  - eexists. split; [reflexivity|]. repeat split.
Qed.

Lemma getreason_getupdatestate_labels_witness :
  exists p, sample_Package foo_remote sample_localdb = Some p
            /\ getreason p = Return "as dependency"
            /\ getupdatestate p = Return "update available"
            /\ (exists s, getattr A_INSTALLSTATE p = Return s)
            /\ exists q, sample_Package far_future sample_localdb = Some q
                         /\ getattr A_BUILDDATE q = ThrowLogicError.
Proof.
  eexists. split; [reflexivity|]. split; [|split; [|split]].
  - refine (proj1 (proj2 (proj2 (proj1
      getreason_getupdatestate_labels _))) _). reflexivity.
  - refine (proj1 (proj2 (proj2 (proj2 (proj2 (proj2 (proj1
      getreason_getupdatestate_labels _)))))) _). reflexivity.
  - refine (proj1 (proj2 (proj2 (proj2 (proj2 (proj2
      (proj1 (proj2 getreason_getupdatestate_labels) sample_alpm
         sample_libc foo_remote sample_localdb 0 0 _ eq_refl))))))
      A_INSTALLSTATE I _).
    discriminate.
  - eexists. split; [reflexivity|].
    refine (proj2 (proj2 (proj2 (proj2 (proj2 (proj2
      (proj1 (proj2 getreason_getupdatestate_labels) sample_alpm
         sample_libc far_future sample_localdb 0 0 _ eq_refl)))))) _).
    reflexivity.
Defined.

(** ** Mutators *)

(** C9.  After [setcolindex i], [getcolindex] is [i]; after [setop o],
    [getop] is [o]; any integer and any tag is stored as it is, and
    neither mutator changes what another accessor returns. *)
Theorem setcolindex_setop_frame :
  forall (libc : Libc) (p : Package) (i : Z) (o : OperationEnum),
    getcolindex (setcolindex i p) = i
    /\ getop (setop o p) = o
    /\ getop (setcolindex i p) = getop p
    /\ getcolindex (setop o p) = getcolindex p
    /\ (forall a, getattr a (setcolindex i p) = getattr a p
                  /\ getattr a (setop o p) = getattr a p
                  /\ getoffattr a (setcolindex i p) = getoffattr a p
                  /\ getoffattr a (setop o p) = getoffattr a p)
    /\ getversion (setcolindex i p) = getversion p
    /\ getversion (setop o p) = getversion p
    /\ getreason (setcolindex i p) = getreason p
    /\ getreason (setop o p) = getreason p
    /\ getupdatestate (setcolindex i p) = getupdatestate p
    /\ getupdatestate (setop o p) = getupdatestate p
    /\ getbuilddate (setcolindex i p) = getbuilddate p
    /\ getbuilddate (setop o p) = getbuilddate p
    /\ setcolindex (_colindex p) (setcolindex i p) = p
    /\ setop (op p) (setop o p) = p.
Proof.
  intros libc p i o. destruct p.
  repeat split; try reflexivity; destruct a; reflexivity.
Qed.

(** ** Binary floating point: shifting and rounding *)

Lemma digits2_pos_log2 (m : positive) :
  Zpos (digits2_pos m) = Z.log2 (Zpos m) + 1.
Proof.
  induction m as [m IH|m IH|]; simpl digits2_pos.
  - rewrite Pos2Z.inj_succ, IH.
    change (Zpos m~1) with (2 * Zpos m + 1). rewrite Z.log2_succ_double; lia.
  - rewrite Pos2Z.inj_succ, IH.
    change (Zpos m~0) with (2 * Zpos m). rewrite Z.log2_double; lia.
  - reflexivity.
Qed.

Lemma iter_pos_nat {A : Type} (f : A -> A) (p : positive) (x : A) :
  iter_pos f p x = Nat.iter (Pos.to_nat p) f x.
Proof.
  revert x; induction p as [p IH|p IH|]; intros x; simpl iter_pos.
  - rewrite !IH, Pos2Nat.inj_xI.
    replace (S (2 * Pos.to_nat p)) with (Pos.to_nat p + (Pos.to_nat p + 1))%nat
      by lia.
    rewrite !Nat.iter_add. simpl. reflexivity.
  - rewrite !IH, Pos2Nat.inj_xO.
    replace (2 * Pos.to_nat p)%nat with (Pos.to_nat p + Pos.to_nat p)%nat
      by lia.
    now rewrite Nat.iter_add.
  - reflexivity.
Qed.

Lemma shr_1_nonneg (m : Z) (r s : bool) :
  0 <= m ->
  shr_1 (Build_shr_record m r s)
  = Build_shr_record (m / 2) (Z.odd m) (r || s).
Proof.
  intros Hm. destruct m as [|p|p]; [reflexivity| |lia].
  destruct p as [p|p|]; unfold shr_1.
  - f_equal. apply (Z.div_unique _ 2 _ 1); lia.
  - f_equal. apply (Z.div_unique _ 2 _ 0); lia.
  - reflexivity.
Qed.

(** [k + 1] shifts of a non-negative mantissa: the quotient by [2^(k+1)],
    the bit just below it, and whether anything lies below that bit. *)
Lemma iter_shr_1 (m : Z) (k : nat) :
  0 <= m ->
  Nat.iter (S k) shr_1 (Build_shr_record m false false)
  = Build_shr_record (m / 2 ^ Z.of_nat (S k))
      (Z.testbit m (Z.of_nat k))
      (negb (m mod 2 ^ Z.of_nat k =? 0)).
Proof.
  intros Hm. induction k as [|k IH].
  - unfold Nat.iter; cbn [nat_rect]. rewrite shr_1_nonneg by assumption.
    change (2 ^ Z.of_nat 1) with 2. change (2 ^ Z.of_nat 0) with 1.
    rewrite Z.mod_1_r, Z.bit0_odd. reflexivity.
  - rewrite Nat.iter_succ, IH.
    rewrite shr_1_nonneg by (apply Z.div_pos; lia).
    f_equal.
    + rewrite Z.div_div by lia. f_equal.
      rewrite (Nat2Z.inj_succ (S k)), Z.pow_succ_r by lia. lia.
    + rewrite Z.testbit_odd, Z.shiftr_div_pow2 by lia. reflexivity.
    + assert (Hb : Z.testbit m (Z.of_nat k)
                   = negb ((m / 2 ^ Z.of_nat k) mod 2 =? 0)).
      { destruct (Z.testbit m (Z.of_nat k)) eqn:T;
          [apply Z.testbit_true in T | apply Z.testbit_false in T];
          try lia; rewrite T; reflexivity. }
      rewrite Hb, (Nat2Z.inj_succ k), Z.pow_succ_r by lia.
      pose proof (Z.pow_pos_nonneg 2 (Z.of_nat k) ltac:(lia) ltac:(lia)) as Hp.
      rewrite (Z.mul_comm 2), Z.rem_mul_r by lia.
      pose proof (Z.mod_pos_bound m (2 ^ Z.of_nat k) Hp).
      pose proof (Z.mod_pos_bound (m / 2 ^ Z.of_nat k) 2 ltac:(lia)).
      destruct (Z.eqb_spec (m mod 2 ^ Z.of_nat k) 0) as [E|E];
        destruct (Z.eqb_spec ((m / 2 ^ Z.of_nat k) mod 2) 0) as [E'|E'];
        simpl; symmetry.
      * apply negb_false_iff, Z.eqb_eq. lia.
      * apply negb_true_iff, Z.eqb_neq. nia.
      * apply negb_true_iff, Z.eqb_neq. nia.
      * apply negb_true_iff, Z.eqb_neq. nia.
Qed.

Lemma div_half_even_1 (m : Z) : div_half_even m 1 = m.
Proof.
  unfold div_half_even. rewrite Z.mod_1_r, Z.div_1_r. reflexivity.
Qed.

Lemma round_iter_shr_1 (m : Z) (k : nat) :
  0 <= m ->
  let mrs := Nat.iter (S k) shr_1 (Build_shr_record m false false) in
  round_nearest_even (shr_m mrs) (loc_of_shr_record mrs)
  = div_half_even m (2 ^ Z.of_nat (S k)).
Proof.
  intros Hm mrs. subst mrs. rewrite iter_shr_1 by assumption.
  unfold div_half_even. rewrite (Nat2Z.inj_succ k), Z.pow_succ_r by lia.
  pose proof (Z.pow_pos_nonneg 2 (Z.of_nat k) ltac:(lia) ltac:(lia)) as Hp.
  set (P := 2 ^ Z.of_nat k) in *.
  rewrite (Z.mul_comm 2 P), Z.rem_mul_r by lia.
  pose proof (Z.mod_pos_bound m P Hp).
  pose proof (Z.mod_pos_bound (m / P) 2 ltac:(lia)).
  assert (Hb : Z.testbit m (Z.of_nat k) = negb ((m / P) mod 2 =? 0)).
  { destruct (Z.testbit m (Z.of_nat k)) eqn:T;
      [apply Z.testbit_true in T | apply Z.testbit_false in T];
      try lia; fold P in T; rewrite T; reflexivity. }
  rewrite Hb. cbn [shr_m loc_of_shr_record].
  destruct (Z.eqb_spec (m mod P) 0) as [E|E];
    destruct (Z.eqb_spec ((m / P) mod 2) 0) as [E'|E'];
    cbn [negb round_nearest_even].
  - replace (2 * (m mod P + P * ((m / P) mod 2)) ?= P * 2) with Lt;
      [reflexivity|]. symmetry. apply Z.compare_lt_iff. nia.
  - replace (2 * (m mod P + P * ((m / P) mod 2)) ?= P * 2) with Eq;
      [reflexivity|]. symmetry. apply Z.compare_eq_iff. nia.
  - replace (2 * (m mod P + P * ((m / P) mod 2)) ?= P * 2) with Lt;
      [reflexivity|]. symmetry. apply Z.compare_lt_iff. nia.
  - replace (2 * (m mod P + P * ((m / P) mod 2)) ?= P * 2) with Gt;
      [reflexivity|]. symmetry. apply Z.compare_gt_iff. nia.
Qed.

(** A right shift by [n >= 0] places without previous loss, followed by
    rounding to nearest-even, is [div_half_even] by [2^n]. *)
Lemma shr_round (m e n : Z) :
  0 <= m -> 0 <= n ->
  snd (shr (Build_shr_record m false false) e n) = e + n
  /\ (let mrs := fst (shr (Build_shr_record m false false) e n) in
      round_nearest_even (shr_m mrs) (loc_of_shr_record mrs)
      = div_half_even m (2 ^ n)).
Proof.
  intros Hm Hn. destruct n as [|p|p]; [| |lia].
  - simpl. rewrite div_half_even_1. split; [lia|reflexivity].
  - cbn [shr fst snd]. split; [reflexivity|].
    rewrite iter_pos_nat.
    destruct (Pos2Nat.is_succ p) as [k Hk]. rewrite Hk.
    rewrite round_iter_shr_1 by assumption.
    rewrite <- Hk, positive_nat_Z. reflexivity.
Qed.

Lemma log2_digits (q p : Z) :
  0 < p -> 2 ^ (p - 1) <= q < 2 ^ p -> Z.log2 q + 1 = p.
Proof.
  intros Hp Hq.
  assert (Z.log2 q = p - 1); [|lia].
  apply Z.log2_unique; [lia|].
  replace (Z.succ (p - 1)) with p by lia. exact Hq.
Qed.

(** Bounds of the rounded mantissa. *)
Lemma div_half_even_bounds (m p n : Z) :
  0 < p -> 0 <= n -> 2 ^ (p + n - 1) <= m < 2 ^ (p + n) ->
  2 ^ (p - 1) <= div_half_even m (2 ^ n) <= 2 ^ p.
Proof.
  intros Hp Hn Hm.
  pose proof (Z.pow_pos_nonneg 2 n ltac:(lia) Hn) as HP.
  replace (p + n - 1) with ((p - 1) + n) in Hm by lia.
  rewrite !Z.pow_add_r in Hm by lia.
  assert (2 ^ (p - 1) <= m / 2 ^ n < 2 ^ p).
  { split.
    - apply Z.div_le_lower_bound; lia.
    - apply Z.div_lt_upper_bound; lia. }
  unfold div_half_even.
  destruct (2 * (m mod 2 ^ n) ?= 2 ^ n); [destruct (Z.even _)| |]; lia.
Qed.

(** Rounding a positive mantissa of [prec + n] digits to [prec] digits, in
    the range of normal numbers. *)
Lemma binary_round_aux_exact (prec emax : Z) (s : bool) (mx : positive)
  (ex n : Z) :
  0 < prec -> 0 <= n ->
  Zpos (digits2_pos mx) = prec + n ->
  3 - emax - prec <= ex + n -> ex + n + 1 <= emax - prec ->
  binary_round_aux prec emax s (Zpos mx) ex loc_Exact
  = (let q := div_half_even (Zpos mx) (2 ^ n) in
     if q =? 2 ^ prec
     then S754_finite s (Z.to_pos (2 ^ (prec - 1))) (ex + n + 1)
     else S754_finite s (Z.to_pos q) (ex + n)).
Proof.
  intros Hprec Hn Hd Hlo Hhi.
  unfold binary_round_aux, shr_fexp.
  cbn [Zdigits2 shr_record_of_loc]. rewrite Hd.
  replace (fexp prec emax (prec + n + ex) - ex) with n
    by (unfold fexp, emin; lia).
  destruct (shr_round (Zpos mx) ex n ltac:(lia) Hn) as [He Hr].
  destruct (shr (Build_shr_record (Zpos mx) false false) ex n)
    as [mrs' e'] eqn:Hshr.
  cbn [fst snd] in He, Hr. rewrite Hr, He. clear Hr He Hshr mrs' e'.
  assert (Hm : 2 ^ (prec + n - 1) <= Zpos mx < 2 ^ (prec + n)).
  { rewrite digits2_pos_log2 in Hd.
    pose proof (Z.log2_spec (Zpos mx) ltac:(lia)) as Hl.
    replace (prec + n - 1) with (Z.log2 (Zpos mx)) by lia.
    replace (prec + n) with (Z.succ (Z.log2 (Zpos mx))) by lia.
    exact Hl. }
  pose proof (div_half_even_bounds _ prec n Hprec Hn Hm) as Hq.
  set (q := div_half_even (Zpos mx) (2 ^ n)) in *.
  pose proof (Z.pow_pos_nonneg 2 (prec - 1) ltac:(lia) ltac:(lia)) as Hpp.
  assert (Hpow : 2 ^ prec = 2 * 2 ^ (prec - 1)).
  { rewrite <- Z.pow_succ_r by lia. f_equal. lia. }
  cbv zeta. destruct (Z.eqb_spec q (2 ^ prec)) as [E|E].
  - (* the mantissa was rounded up to the next power of two *)
    assert (Hdq : Zdigits2 q = prec + 1).
    { destruct q as [|qp|qp]; try lia. cbn [Zdigits2].
      rewrite digits2_pos_log2, E, Z.log2_pow2; lia. }
    rewrite Hdq.
    replace (fexp prec emax (prec + 1 + (ex + n)) - (ex + n)) with 1
      by (unfold fexp, emin; lia).
    cbn [shr iter_pos]. rewrite shr_1_nonneg by lia.
    cbn [shr_m]. rewrite E, Hpow, (Z.mul_comm 2), Z.div_mul by lia.
    destruct (2 ^ (prec - 1)) as [|pp|pp] eqn:Epp; try lia.
    replace (ex + n + 1 <=? emax - prec) with true
      by (symmetry; apply Z.leb_le; lia).
    reflexivity.
  - assert (Hdq : Zdigits2 q = prec).
    { destruct q as [|qp|qp]; try lia. cbn [Zdigits2].
      rewrite digits2_pos_log2. apply log2_digits; lia. }
    rewrite Hdq.
    replace (fexp prec emax (prec + (ex + n)) - (ex + n)) with 0
      by (unfold fexp, emin; lia).
    cbn [shr shr_m].
    destruct q as [|qp|qp]; try lia.
    replace (ex + n <=? emax - prec) with true
      by (symmetry; apply Z.leb_le; lia).
    reflexivity.
Qed.

Lemma iter_xO_mul (m k : positive) :
  Zpos (Pos.iter xO m k) = Zpos m * 2 ^ Zpos k.
Proof.
  change (Pos.iter xO m k) with (shift_pos k m).
  rewrite shift_pos_correct, Z.pow_pos_fold. lia.
Qed.

Lemma digits2_pos_iter_xO (m k : positive) :
  Zpos (digits2_pos (Pos.iter xO m k)) = Zpos (digits2_pos m) + Zpos k.
Proof.
  rewrite !digits2_pos_log2, iter_xO_mul.
  rewrite Z.log2_mul_pow2 by lia. lia.
Qed.

(** [binary_round] of a mantissa that has at least [prec] digits. *)
Lemma binary_round_exact (prec emax : Z) (s : bool) (mx : positive)
  (ex n : Z) :
  0 < prec -> 0 <= n ->
  Zpos (digits2_pos mx) = prec + n ->
  3 - emax - prec <= ex + n -> ex + n + 1 <= emax - prec ->
  binary_round prec emax s mx ex
  = (let q := div_half_even (Zpos mx) (2 ^ n) in
     if q =? 2 ^ prec
     then S754_finite s (Z.to_pos (2 ^ (prec - 1))) (ex + n + 1)
     else S754_finite s (Z.to_pos q) (ex + n)).
Proof.
  intros Hprec Hn Hd Hlo Hhi. unfold binary_round, shl_align.
  rewrite Hd.
  replace (fexp prec emax (prec + n + ex) - ex) with n
    by (unfold fexp, emin; lia).
  destruct n as [|p|p]; try lia;
    now apply binary_round_aux_exact.
Qed.

(** [binary_round] of a mantissa that has [k] digits less than [prec]:
    the mantissa is shifted left, nothing is lost. *)
Lemma binary_round_small (prec emax : Z) (s : bool) (mx k : positive)
  (ex : Z) :
  Zpos (digits2_pos mx) + Zpos k = prec ->
  3 - emax - prec <= ex - Zpos k -> ex - Zpos k + 1 <= emax - prec ->
  binary_round prec emax s mx ex
  = S754_finite s (Pos.iter xO mx k) (ex - Zpos k).
Proof.
  intros Hd Hlo Hhi. unfold binary_round, shl_align.
  replace (fexp prec emax (Zpos (digits2_pos mx) + ex) - ex) with (Zneg k)
    by (unfold fexp, emin; lia).
  replace (fexp prec emax (Zpos (digits2_pos mx) + ex)) with (ex - Zpos k)
    by (unfold fexp, emin; lia).
  rewrite (binary_round_aux_exact prec emax s _ _ 0);
    try rewrite digits2_pos_iter_xO; try lia.
  cbv zeta. rewrite Z.pow_0_r, div_half_even_1.
  assert (Hlt : Zpos (Pos.iter xO mx k) < 2 ^ prec).
  { pose proof (digits2_pos_iter_xO mx k) as Hk.
    rewrite digits2_pos_log2 in Hk.
    pose proof (Z.log2_spec (Zpos (Pos.iter xO mx k)) ltac:(lia)) as Hl.
    replace prec with (Z.succ (Z.log2 (Zpos (Pos.iter xO mx k)))) by lia.
    apply Hl. }
  destruct (Z.eqb_spec (Zpos (Pos.iter xO mx k)) (2 ^ prec)); [lia|].
  rewrite Z.add_0_r. reflexivity.
Qed.

Lemma div_half_even_mul (a d : Z) : 0 < d -> div_half_even (a * d) d = a.
Proof.
  intros Hd. unfold div_half_even.
  rewrite Z.mod_mul, Z.div_mul by lia.
  replace (2 * 0 ?= d) with Lt by (symmetry; apply Z.compare_lt_iff; lia).
  reflexivity.
Qed.

(** A [float] with a full mantissa, seen as a [double]. *)
Lemma double_of_float_finite (m : positive) (e : Z) :
  digits2_pos m = 24%positive -> -1000 <= e <= 900 ->
  double_of_float (S754_finite false m e)
  = S754_finite false (Pos.iter xO m 29) (e - 29).
Proof.
  intros Hd He. unfold double_of_float.
  apply binary_round_small; rewrite ?Hd; lia.
Qed.

Lemma float_of_double_finite (m : positive) (e : Z) :
  digits2_pos m = 24%positive -> -120 <= e <= 100 ->
  float_of_double (S754_finite false (Pos.iter xO m 29) (e - 29))
  = S754_finite false m e.
Proof.
  intros Hd He. unfold float_of_double.
  rewrite (binary_round_exact 24 128 _ _ _ 29);
    try rewrite digits2_pos_iter_xO, Hd; try lia.
  cbv zeta. rewrite iter_xO_mul, div_half_even_mul by lia.
  assert (Zpos m < 2 ^ 24).
  { pose proof (digits2_pos_log2 m) as Hl. rewrite Hd in Hl.
    pose proof (Z.log2_spec (Zpos m) ltac:(lia)).
    replace 24 with (Z.succ (Z.log2 (Zpos m))) by lia. lia. }
  destruct (Z.eqb_spec (Zpos m) (2 ^ 24)); [lia|].
  cbn [Z.to_pos]. f_equal. lia.
Qed.

Lemma SFdiv_d1024 (mx : positive) (ex : Z) :
  digits2_pos mx = 53%positive -> -1000 <= ex <= 900 ->
  SFdiv 53 1024 (S754_finite false mx ex) d1024
  = S754_finite false mx (ex - 10).
Proof.
  intros Hd He.
  change d1024 with (S754_finite false 4503599627370496 (-42)).
  unfold SFdiv, SFdiv_core_binary. cbn [Zdigits2 xorb]. rewrite Hd.
  change (Zpos (digits2_pos 4503599627370496)) with 53.
  replace (Z.min (fexp 53 1024 (53 + ex - (53 + -42))) (ex - -42))
    with (ex - 11) by (unfold fexp, emin; lia).
  replace (ex - -42 - (ex - 11)) with 53 by lia.
  rewrite Z.shiftl_mul_pow2 by lia.
  assert (Hq : (Zpos mx * 2 ^ 53) / 4503599627370496 = Zpos mx~0).
  { symmetry. apply (Z.div_unique _ _ _ 0); lia. }
  assert (Hr : (Zpos mx * 2 ^ 53) mod 4503599627370496 = 0).
  { symmetry. apply (Z.mod_unique _ _ (Zpos mx~0)); lia. }
  unfold Z.div in Hq. unfold Z.modulo in Hr.
  destruct (Z.div_eucl (Zpos mx * 2 ^ 53) 4503599627370496) as [q r].
  subst q r.
  change (new_location 4503599627370496 0) with loc_Exact.
  rewrite (binary_round_aux_exact 53 1024 _ _ _ 1);
    try (cbn [digits2_pos]; rewrite Pos2Z.inj_succ, Hd); try lia.
  cbv zeta. replace (Zpos mx~0) with (Zpos mx * 2 ^ 1) by lia.
  rewrite div_half_even_mul by lia.
  assert (Zpos mx < 2 ^ 53).
  { pose proof (digits2_pos_log2 mx) as Hl. rewrite Hd in Hl.
    pose proof (Z.log2_spec (Zpos mx) ltac:(lia)).
    replace 53 with (Z.succ (Z.log2 (Zpos mx))) by lia. lia. }
  destruct (Z.eqb_spec (Zpos mx) (2 ^ 53)); [lia|].
  cbn [Z.to_pos]. f_equal. lia.
Qed.

(** One turn of the loop body on a [float] with a full mantissa. *)
Lemma fsize_div_1024_finite (m : positive) (e : Z) :
  digits2_pos m = 24%positive -> -100 <= e <= 100 ->
  fsize_div_1024 (S754_finite false m e) = S754_finite false m (e - 10).
Proof.
  intros Hd He. unfold fsize_div_1024.
  rewrite double_of_float_finite by (assumption || lia).
  rewrite SFdiv_d1024;
    [|apply Pos2Z.inj; rewrite digits2_pos_iter_xO, Hd; reflexivity|lia].
  replace (e - 29 - 10) with (e - 10 - 29) by lia.
  apply float_of_double_finite; [assumption|lia].
Qed.

Lemma digits24_bounds (m : positive) :
  digits2_pos m = 24%positive -> 2 ^ 23 <= Zpos m < 2 ^ 24.
Proof.
  intros Hd. pose proof (digits2_pos_log2 m) as Hl. rewrite Hd in Hl.
  pose proof (Z.log2_spec (Zpos m) ltac:(lia)) as Hs.
  replace (Z.log2 (Zpos m)) with 23 in Hs by lia. exact Hs.
Qed.

(** The guard of the loop on a [float] with a full mantissa. *)
Lemma fsize_gt_1024_finite (m : positive) (e : Z) :
  digits2_pos m = 24%positive -> -23 <= e <= 100 ->
  fsize_gt_1024 (S754_finite false m e) = (2 ^ 33 <? Zpos m * 2 ^ (e + 23)).
Proof.
  intros Hd He. unfold fsize_gt_1024.
  rewrite double_of_float_finite by (assumption || lia).
  change d1024 with (S754_finite false 4503599627370496 (-42)).
  pose proof (digits24_bounds m Hd) as Hm.
  unfold SFltb, SFcompare.
  destruct (Z.compare_spec (-42) (e - 29)) as [E|E|E].
  - assert (e = -13) by lia. subst e.
    change (2 ^ (-13 + 23)) with (2 ^ 10).
    fold (Pos.compare 4503599627370496 (Pos.iter xO m 29)).
    rewrite Pos2Z.inj_compare, iter_xO_mul.
    change (Zpos 4503599627370496) with (2 ^ 23 * 2 ^ 29).
    destruct (Z.compare_spec (2 ^ 23 * 2 ^ 29) (Zpos m * 2 ^ 29));
      destruct (Z.ltb_spec (2 ^ 33) (Zpos m * 2 ^ 10)); try reflexivity; lia.
  - assert (2 ^ 11 <= 2 ^ (e + 23)) by (apply Z.pow_le_mono_r; lia).
    destruct (Z.ltb_spec (2 ^ 33) (Zpos m * 2 ^ (e + 23))); [reflexivity|nia].
  - assert (2 ^ (e + 23) <= 2 ^ 9) by (apply Z.pow_le_mono_r; lia).
    assert (0 < 2 ^ (e + 23)) by (apply Z.pow_pos_nonneg; lia).
    destruct (Z.ltb_spec (2 ^ 33) (Zpos m * 2 ^ (e + 23))); [nia|reflexivity].
Qed.

Lemma nearest24_small (b : Z) : b < 2 ^ 24 -> nearest24 b = b.
Proof.
  intros Hb. unfold nearest24.
  assert (Z.log2 b < 24).
  { destruct (Z.le_gt_cases b 0) as [H|H].
    - rewrite Z.log2_nonpos by assumption. lia.
    - apply Z.log2_lt_pow2; assumption. }
  replace (Z.max 0 (Z.log2 b - 23)) with 0 by lia.
  rewrite Z.pow_0_r, div_half_even_1. lia.
Qed.

(** The conversion of a positive integer to [float]: a full mantissa, and
    the value [nearest24 b]. *)
Lemma float_of_off_t_pos (b : Z) :
  0 < b < 2 ^ 64 ->
  exists m e,
    float_of_off_t b = S754_finite false m e
    /\ digits2_pos m = 24%positive
    /\ -23 <= e <= 41
    /\ Zpos m * 2 ^ (e + 23) = nearest24 b * 2 ^ 23.
Proof.
  intros Hb. destruct b as [|p|p]; try lia.
  unfold float_of_off_t, binary_normalize.
  pose proof (digits2_pos_log2 p) as Hd.
  assert (Hl : 0 <= Z.log2 (Zpos p) < 64).
  { split; [apply Z.log2_nonneg|]. apply Z.log2_lt_pow2; lia. }
  destruct (Z_lt_le_dec (Z.log2 (Zpos p)) 23) as [Hs|Hs].
  - (* fewer than 24 digits: the mantissa is shifted left *)
    set (k := Z.to_pos (23 - Z.log2 (Zpos p))).
    assert (Hk : Zpos k = 23 - Z.log2 (Zpos p)) by (unfold k; lia).
    rewrite (binary_round_small 24 128 false p k) by lia.
    exists (Pos.iter xO p k), (0 - Zpos k). split; [reflexivity|].
    split; [apply Pos2Z.inj; rewrite digits2_pos_iter_xO; lia|].
    split; [lia|].
    rewrite nearest24_small, iter_xO_mul.
    + rewrite <- Z.mul_assoc, <- Z.pow_add_r by lia. do 2 f_equal. lia.
    + apply Z.log2_lt_pow2; lia.
  - (* at least 24 digits: the mantissa is rounded *)
    set (n := Z.log2 (Zpos p) - 23).
    rewrite (binary_round_exact 24 128 false p 0 n) by (unfold n; lia).
    cbv zeta. unfold nearest24. fold n.
    replace (Z.max 0 n) with n by (unfold n; lia).
    assert (Hm : 2 ^ (24 + n - 1) <= Zpos p < 2 ^ (24 + n)).
    { pose proof (Z.log2_spec (Zpos p) ltac:(lia)) as Hsp.
      replace (24 + n - 1) with (Z.log2 (Zpos p)) by (unfold n; lia).
      replace (24 + n) with (Z.succ (Z.log2 (Zpos p))) by (unfold n; lia).
      exact Hsp. }
    pose proof (div_half_even_bounds _ 24 n ltac:(lia) ltac:(unfold n; lia) Hm)
      as Hq.
    set (q := div_half_even (Zpos p) (2 ^ n)) in *.
    assert (Hn : 0 <= n <= 40) by (unfold n; lia).
    destruct (Z.eqb_spec q (2 ^ 24)) as [E|E].
    + exists (Z.to_pos (2 ^ (24 - 1))), (0 + n + 1).
      split; [reflexivity|]. split; [reflexivity|]. split; [lia|].
      rewrite E. change (Zpos (Z.to_pos (2 ^ (24 - 1)))) with (2 ^ 23).
      replace (0 + n + 1 + 23) with (24 + n) by lia.
      rewrite Z.pow_add_r by lia. lia.
    + exists (Z.to_pos q), (0 + n).
      split; [reflexivity|].
      assert (Hqp : Zpos (Z.to_pos q) = q) by (apply Z2Pos.id; lia).
      split; [|split; [lia|]].
      * apply Pos2Z.inj. rewrite digits2_pos_log2, Hqp.
        apply log2_digits; lia.
      * rewrite Hqp. replace (0 + n + 23) with (n + 23) by lia.
        rewrite Z.pow_add_r by lia. lia.
Qed.

(** ** The loop of [size2str] *)

Lemma size2str_loop_stop (fuel : nat) (m : positive) (e u : Z) :
  digits2_pos m = 24%positive -> -23 <= e <= 100 ->
  Zpos m * 2 ^ (e + 23) <= 2 ^ 33 \/ 4 <= u ->
  size2str_loop fuel (S754_finite false m e) u = (S754_finite false m e, u).
Proof.
  intros Hd He H.
  assert (G : fsize_gt_1024 (S754_finite false m e) && (u <? unitssize - 1)
              = false).
  { rewrite fsize_gt_1024_finite by assumption.
    change (unitssize - 1) with 4.
    destruct (Z.ltb_spec (2 ^ 33) (Zpos m * 2 ^ (e + 23)));
      destruct (Z.ltb_spec u 4); try reflexivity; lia. }
  destruct fuel; cbn [size2str_loop]; rewrite G; reflexivity.
Qed.

Lemma size2str_loop_step (fuel : nat) (m : positive) (e u : Z) :
  digits2_pos m = 24%positive -> -23 <= e <= 100 ->
  2 ^ 33 < Zpos m * 2 ^ (e + 23) -> u < 4 ->
  size2str_loop (S fuel) (S754_finite false m e) u
  = size2str_loop fuel (S754_finite false m (e - 10)) (u + 1)
  /\ -23 <= e - 10
  /\ Zpos m * 2 ^ (e + 23) = Zpos m * 2 ^ (e - 10 + 23) * 2 ^ 10.
Proof.
  intros Hd He H Hu.
  pose proof (digits24_bounds m Hd) as Hm.
  assert (He' : -13 <= e).
  { destruct (Z_lt_le_dec e (-13)) as [C|C]; [|assumption].
    assert (2 ^ (e + 23) <= 2 ^ 9) by (apply Z.pow_le_mono_r; lia).
    assert (0 < 2 ^ (e + 23)) by (apply Z.pow_pos_nonneg; lia). nia. }
  split; [|split; [lia|]].
  - cbn [size2str_loop].
    rewrite fsize_gt_1024_finite by assumption.
    change (unitssize - 1) with 4.
    destruct (Z.ltb_spec (2 ^ 33) (Zpos m * 2 ^ (e + 23))); [|lia].
    destruct (Z.ltb_spec u 4); [|lia]. cbn [andb].
    rewrite fsize_div_1024_finite by (assumption || lia). reflexivity.
  - rewrite <- Z.mul_assoc, <- Z.pow_add_r by lia. do 2 f_equal. lia.
Qed.

(** The loop ends with the mantissa it started with and the exponent
    lowered by 10 for each unit step; the number of steps is [unit_index]
    of the value. *)
Lemma size2str_loop_finite (m : positive) (e F : Z) :
  digits2_pos m = 24%positive -> -23 <= e <= 41 ->
  Zpos m * 2 ^ (e + 23) = F * 2 ^ 23 ->
  size2str_loop 4 (S754_finite false m e) 0
  = (S754_finite false m (e - 10 * Z.of_nat (unit_index F)),
     Z.of_nat (unit_index F)).
Proof.
  intros Hd He HF. unfold unit_index.
  destruct (Z.leb_spec F 1024) as [C0|C0].
  { rewrite size2str_loop_stop by (assumption || lia).
    do 2 f_equal. lia. }
  destruct (size2str_loop_step 3 m e 0 Hd ltac:(lia) ltac:(lia) ltac:(lia))
    as (-> & He1 & H1).
  change (0 + 1) with 1.
  destruct (Z.leb_spec F (1024 ^ 2)) as [C1|C1].
  { rewrite size2str_loop_stop by (assumption || lia). reflexivity. }
  destruct (size2str_loop_step 2 m (e - 10) 1 Hd ltac:(lia) ltac:(lia)
              ltac:(lia)) as (-> & He2 & H2).
  change (1 + 1) with 2.
  destruct (Z.leb_spec F (1024 ^ 3)) as [C2|C2].
  { rewrite size2str_loop_stop by (assumption || lia).
    do 2 f_equal. lia. }
  destruct (size2str_loop_step 1 m (e - 10 - 10) 2 Hd ltac:(lia) ltac:(lia)
              ltac:(lia)) as (-> & He3 & H3).
  change (2 + 1) with 3.
  destruct (Z.leb_spec F (1024 ^ 4)) as [C3|C3].
  { rewrite size2str_loop_stop by (assumption || lia).
    do 2 f_equal. lia. }
  destruct (size2str_loop_step 0 m (e - 10 - 10 - 10) 3 Hd ltac:(lia)
              ltac:(lia) ltac:(lia)) as (-> & He4 & H4).
  change (3 + 1) with 4.
  rewrite size2str_loop_stop by (assumption || lia).
  do 2 f_equal. lia.
Qed.

(** With [unitssize - 1] rounds of fuel the loop always leaves through its
    guard: the fuel does not run out. *)
Lemma size2str_loop_exit (fsize : spec_float) (currentunit : Z) (fuel : nat) :
  0 <= currentunit -> unitssize - 1 <= currentunit + Z.of_nat fuel ->
  let '(f, u) := size2str_loop fuel fsize currentunit in
  fsize_gt_1024 f && (u <? unitssize - 1) = false.
Proof.
  revert fsize currentunit.
  induction fuel as [|fuel IH]; intros fsize u Hu Hf; cbn [size2str_loop].
  - destruct (fsize_gt_1024 fsize && (u <? unitssize - 1)) eqn:G;
      [|exact G].
    apply andb_true_iff in G. destruct G as [_ G].
    apply Z.ltb_lt in G. simpl Z.of_nat in Hf. lia.
  - destruct (fsize_gt_1024 fsize && (u <? unitssize - 1)) eqn:G;
      [|exact G].
    apply IH; lia.
Qed.

(** ** Rounded division *)

Lemma div_half_even_cancel (a d c : Z) :
  0 < d -> 0 < c -> div_half_even (a * c) (d * c) = div_half_even a d.
Proof.
  intros Hd Hc. unfold div_half_even.
  rewrite Z.div_mul_cancel_r, Z.mul_mod_distr_r by lia.
  replace (2 * (a mod d * c) ?= d * c) with (2 * (a mod d) ?= d);
    [reflexivity|].
  destruct (Z.compare_spec (2 * (a mod d)) d);
    destruct (Z.compare_spec (2 * (a mod d * c)) (d * c));
    try reflexivity; nia.
Qed.

(** The rounded quotient is within half a unit of the exact one. *)
Lemma div_half_even_error (a d : Z) :
  0 < d -> - d <= 2 * (div_half_even a d * d - a) <= d.
Proof.
  intros Hd. unfold div_half_even.
  pose proof (Z.div_mod a d ltac:(lia)) as E.
  pose proof (Z.mod_pos_bound a d Hd) as B.
  destruct (Z.compare_spec (2 * (a mod d)) d) as [C|C|C];
    [destruct (Z.even (a / d))| |]; nia.
Qed.

(** An integer within less than half a unit of the exact quotient is the
    rounded quotient. *)
Lemma div_half_even_near (a d f : Z) :
  0 < d -> - d < 2 * (f * d - a) < d -> div_half_even a d = f.
Proof.
  intros Hd H.
  pose proof (div_half_even_error a d Hd) as E.
  nia.
Qed.

Lemma div_half_even_floor (a d : Z) :
  0 < d -> a / d <= div_half_even a d <= a / d + 1.
Proof.
  intros Hd. unfold div_half_even.
  destruct (2 * (a mod d) ?= d); [destruct (Z.even _)| |]; lia.
Qed.

(** ** What [size2str] prints *)

Lemma hundredths_value (m : positive) (e F k : Z) :
  0 <= k -> -23 <= e ->
  Zpos m * 2 ^ (e + 23) = F * 2 ^ 23 ->
  hundredths m (e - 10 * k) = div_half_even (100 * F) (1024 ^ k).
Proof.
  intros Hk He HF. unfold hundredths.
  change 1024 with (2 ^ 10). rewrite <- Z.pow_mul_r by lia.
  rewrite <- (div_half_even_cancel (100 * F) _ (2 ^ 23)) by
    (try apply Z.pow_pos_nonneg; lia).
  replace (100 * F * 2 ^ 23) with (100 * (Zpos m * 2 ^ (e + 23))) by lia.
  rewrite <- Z.pow_add_r by lia.
  destruct (Z_lt_le_dec (e - 10 * k) 0) as [C|C].
  - replace (Z.max (e - 10 * k) 0) with 0 by lia.
    replace (Z.max (- (e - 10 * k)) 0) with (10 * k - e) by lia.
    rewrite Z.pow_0_r, Z.mul_1_r.
    rewrite <- (div_half_even_cancel _ _ (2 ^ (e + 23))) by
      (apply Z.pow_pos_nonneg; lia).
    rewrite <- Z.pow_add_r by lia. f_equal; [lia|f_equal; lia].
  - replace (Z.max (e - 10 * k) 0) with (e - 10 * k) by lia.
    replace (Z.max (- (e - 10 * k)) 0) with 0 by lia.
    rewrite Z.pow_0_r, div_half_even_1.
    replace (e + 23) with ((e - 10 * k) + (10 * k + 23)) by lia.
    rewrite Z.pow_add_r by lia.
    replace (100 * (Zpos m * (2 ^ (e - 10 * k) * 2 ^ (10 * k + 23))))
      with ((Zpos m * 100 * 2 ^ (e - 10 * k)) * 2 ^ (10 * k + 23)) by lia.
    rewrite div_half_even_mul by (apply Z.pow_pos_nonneg; lia).
    reflexivity.
Qed.

(** The string of [size2str] is the rounded hundredths of the scaled
    value, a space, and the unit. *)
Lemma size2str_value (b : Z) :
  0 <= b < 2 ^ 64 ->
  size2str b = (print_hundredths (size_hundredths b) ++ " " ++ size_unit b)%string.
Proof.
  intros Hb. destruct (Z.eq_dec b 0) as [->|Hz]; [reflexivity|].
  destruct (float_of_off_t_pos b ltac:(lia)) as (m & e & Hf & Hd & He & Hv).
  unfold size2str. rewrite Hf.
  change (Z.to_nat (unitssize - 1)) with 4%nat.
  rewrite (size2str_loop_finite m e (nearest24 b)) by assumption.
  unfold put_fixed2, sign_string, size_hundredths, size_unit.
  rewrite (hundredths_value m e (nearest24 b)) by (assumption || lia).
  rewrite Nat2Z.id. reflexivity.
Qed.

(** ** The nearest [float] of an integer *)

Lemma nearest24_lower (b : Z) : 0 < b -> 2 ^ Z.log2 b <= nearest24 b.
Proof.
  intros Hb. unfold nearest24.
  pose proof (Z.log2_spec b Hb) as [Hl _].
  pose proof (Z.log2_nonneg b) as Hn.
  destruct (Z_lt_le_dec (Z.log2 b) 23) as [C|C].
  - replace (Z.max 0 (Z.log2 b - 23)) with 0 by lia.
    rewrite Z.pow_0_r, div_half_even_1. lia.
  - replace (Z.max 0 (Z.log2 b - 23)) with (Z.log2 b - 23) by lia.
    set (n := Z.log2 b - 23) in *.
    assert (Hp : 0 < 2 ^ n) by (apply Z.pow_pos_nonneg; lia).
    assert (E : 2 ^ Z.log2 b = 2 ^ 23 * 2 ^ n).
    { rewrite <- Z.pow_add_r by lia. f_equal. lia. }
    pose proof (div_half_even_floor b (2 ^ n) Hp) as [Hf _].
    assert (2 ^ 23 <= b / 2 ^ n) by (apply Z.div_le_lower_bound; lia).
    nia.
Qed.

Lemma nearest24_above_TB (b : Z) :
  1024 ^ 4 + 65536 < b -> 1024 ^ 4 < nearest24 b.
Proof.
  intros Hb.
  assert (H40 : 40 <= Z.log2 b) by (apply Z.log2_le_pow2; lia).
  destruct (Z_lt_le_dec 40 (Z.log2 b)) as [C|C].
  - pose proof (nearest24_lower b ltac:(lia)).
    assert (2 ^ 41 <= 2 ^ Z.log2 b) by (apply Z.pow_le_mono_r; lia).
    lia.
  - unfold nearest24. replace (Z.log2 b) with 40 by lia.
    change (2 ^ Z.max 0 (40 - 23)) with 131072.
    pose proof (Z.log2_spec b ltac:(lia)) as [_ Hu].
    replace (Z.log2 b) with 40 in Hu by lia.
    unfold div_half_even.
    pose proof (Z.div_mod b 131072 ltac:(lia)).
    pose proof (Z.mod_pos_bound b 131072 ltac:(lia)).
    destruct (Z.compare_spec (2 * (b mod 131072)) 131072);
      [destruct (Z.even _)| |]; lia.
Qed.

Lemma nearest24_at_TB (b : Z) :
  1024 ^ 4 <= b <= 1024 ^ 4 + 65536 -> nearest24 b = 1024 ^ 4.
Proof.
  intros Hb.
  assert (H40 : Z.log2 b = 40) by (apply Z.log2_unique; lia).
  unfold nearest24. rewrite H40.
  change (2 ^ Z.max 0 (40 - 23)) with 131072.
  unfold div_half_even.
  pose proof (Z.div_mod b 131072 ltac:(lia)).
  pose proof (Z.mod_pos_bound b 131072 ltac:(lia)).
  assert (Hq : b / 131072 = 8388608) by lia. rewrite Hq.
  destruct (Z.compare_spec (2 * (b mod 131072)) 131072);
    try reflexivity; lia.
Qed.

Lemma unit_index_spec (F : Z) :
  (unit_index F <= 4)%nat
  /\ (forall j, (j < unit_index F)%nat -> 1024 ^ (Z.of_nat j + 1) < F)
  /\ ((unit_index F < 4)%nat -> F <= 1024 ^ (Z.of_nat (unit_index F) + 1)).
Proof.
  unfold unit_index.
  destruct (Z.leb_spec F 1024);
    [|destruct (Z.leb_spec F (1024 ^ 2));
      [|destruct (Z.leb_spec F (1024 ^ 3));
        [|destruct (Z.leb_spec F (1024 ^ 4))]]];
    (split; [lia|split; [intros j Hj|intros Hk; simpl; lia]]).
  - lia.
  - assert (j = 0%nat) by lia. subst j. simpl. lia.
  - assert (j = 0 \/ j = 1)%nat as [->| ->] by lia; simpl; lia.
  - assert (j = 0 \/ j = 1 \/ j = 2)%nat as [->|[->| ->]] by lia; simpl; lia.
  - assert (j = 0 \/ j = 1 \/ j = 2 \/ j = 3)%nat
      as [->|[->|[->| ->]]] by lia; simpl; lia.
Qed.

Lemma unit_index_TB (F : Z) : 1024 ^ 4 < F -> unit_index F = 4%nat.
Proof.
  intros H. unfold unit_index.
  repeat (match goal with
          | |- context [?a <=? ?b] => destruct (Z.leb_spec a b); [lia|]
          end).
  reflexivity.
Qed.

(** ** [size2str] *)

(** A value of exactly 1024 is not divided; [1.125] is a tie between
    [1.12] and [1.13] and goes to the even digit; the largest byte count
    is printed in TB. *)
Example size2str_samples :
  size2str 1024 = "1024.00 B"
  /\ size2str 1152 = "1.12 KB"
  /\ size2str 123456789 = "117.74 MB"
  /\ size2str (2 ^ 63 - 1) = "8388608.00 TB".
Proof. repeat split; vm_compute; reflexivity. Qed.

(** C1 (as amended for the last unit).  For a byte count [b], [size2str]
    converts [b] to [float], divides by 1024 while the value is greater
    than 1024 and the unit index is below the last unit, and returns the
    remaining value with two decimals, a space and the unit among B, KB,
    MB, GB, TB; [size2str 0] is ["0.00 B"], [size2str 1536] is
    ["1.50 KB"], [size2str (2*1024*1024)] is ["2.00 MB"].  The unit is TB
    for every [b > 1024^4 + 65536]; from [1024^4] to [1024^4 + 65536] the
    [float] is [1024^4], which is not greater than 1024 after three
    divisions, and the result is ["1024.00 GB"]. *)
Theorem size2str_units :
  (forall b, 0 <= b < 2 ^ 63 ->
     let F := nearest24 b in
     let k := unit_index F in
     size2str b
     = (print_hundredths (div_half_even (100 * F) (1024 ^ Z.of_nat k))
        ++ " " ++ nth k units "")%string
     /\ (k <= 4)%nat
     /\ (forall j, (j < k)%nat -> 1024 ^ (Z.of_nat j + 1) < F)
     /\ ((k < 4)%nat -> F <= 1024 ^ (Z.of_nat k + 1)))
  /\ size2str 0 = "0.00 B"
  /\ size2str 1536 = "1.50 KB"
  /\ size2str (2 * 1024 * 1024) = "2.00 MB"
  /\ (forall b, 1024 ^ 4 + 65536 < b < 2 ^ 63 ->
                exists v, size2str b = (v ++ " TB")%string)
  /\ (forall b, 1024 ^ 4 <= b <= 1024 ^ 4 + 65536 ->
                size2str b = "1024.00 GB").
Proof.
  split; [|split; [|split; [|split; [|split]]]]; try reflexivity.
  - intros b Hb F k. split.
    + apply size2str_value. lia.
    + apply unit_index_spec.
  - intros b Hb. rewrite size2str_value by lia.
    eexists. unfold size_unit.
    rewrite (unit_index_TB (nearest24 b)) by (apply nearest24_above_TB; lia).
    reflexivity.
  - intros b Hb. rewrite size2str_value by lia.
    unfold size_hundredths, size_unit. rewrite (nearest24_at_TB b Hb).
    reflexivity.
Qed.

Lemma size2str_units_witness :
  (exists v, size2str (1024 ^ 4 + 65537) = (v ++ " TB")%string)
  /\ size2str (1024 ^ 4 + 65536) = "1024.00 GB"
  /\ nearest24 123456789 <= 1024 ^ 3.
Proof.
  destruct size2str_units as (H1 & _ & _ & _ & H2 & H3).
  split; [apply H2; lia|]. split; [apply H3; lia|].
  destruct (H1 123456789 ltac:(lia)) as (_ & _ & _ & H4).
  apply H4. unfold unit_index. simpl. lia.
Defined.

(** The claim as stated fails at [1024^4] bytes, which are printed in
    GB. *)
Lemma size2str_TB_counterexample :
  1024 ^ 4 >= 1024 ^ 4
  /\ size2str (1024 ^ 4) = "1024.00 GB"
  /\ ~ exists v, size2str (1024 ^ 4) = (v ++ " TB")%string.
Proof.
  split; [lia|]. split; [reflexivity|].
  intros [v H]. change (size2str (1024 ^ 4)) with "1024.00 GB"%string in H.
  repeat (destruct v as [|? v]; [discriminate H|injection H as _ H]).
  destruct v; discriminate H.
Qed.

(** ** Rounding to [float]: bounds and stability *)

Lemma nearest24_error (Y : Z) :
  let n := Z.max 0 (Z.log2 Y - 23) in
  - 2 ^ n <= 2 * (nearest24 Y - Y) <= 2 ^ n.
Proof.
  intros n. unfold nearest24. fold n.
  apply div_half_even_error. apply Z.pow_pos_nonneg; lia.
Qed.

Lemma nearest24_upper (Y : Z) : 0 < Y -> nearest24 Y <= 2 ^ (Z.log2 Y + 1).
Proof.
  intros HY. unfold nearest24.
  pose proof (Z.log2_spec Y HY) as [_ Hu].
  pose proof (Z.log2_nonneg Y) as Hn.
  replace (Z.succ (Z.log2 Y)) with (Z.log2 Y + 1) in Hu by lia.
  destruct (Z_lt_le_dec (Z.log2 Y) 23) as [C|C].
  - replace (Z.max 0 (Z.log2 Y - 23)) with 0 by lia.
    rewrite Z.pow_0_r, div_half_even_1. lia.
  - replace (Z.max 0 (Z.log2 Y - 23)) with (Z.log2 Y - 23) by lia.
    set (n := Z.log2 Y - 23) in *.
    assert (Hp : 0 < 2 ^ n) by (apply Z.pow_pos_nonneg; lia).
    assert (E : 2 ^ (Z.log2 Y + 1) = 2 ^ 24 * 2 ^ n).
    { rewrite <- Z.pow_add_r by lia. f_equal. lia. }
    pose proof (div_half_even_floor Y (2 ^ n) Hp) as [_ Hf].
    assert (Y / 2 ^ n < 2 ^ 24) by (apply Z.div_lt_upper_bound; lia).
    nia.
Qed.

Lemma nearest24_pow2 (j : Z) : 0 <= j -> nearest24 (2 ^ j) = 2 ^ j.
Proof.
  intros Hj. unfold nearest24. rewrite Z.log2_pow2 by assumption.
  set (n := Z.max 0 (j - 23)).
  replace (2 ^ j) with (2 ^ (j - n) * 2 ^ n)
    by (rewrite <- Z.pow_add_r by lia; f_equal; lia).
  rewrite div_half_even_mul by (apply Z.pow_pos_nonneg; lia).
  reflexivity.
Qed.

Lemma nearest24_le_pow2 (Y j : Z) :
  0 <= j -> Y <= 2 ^ j -> nearest24 Y <= 2 ^ j.
Proof.
  intros Hj HY.
  destruct (Z_le_gt_dec Y 0) as [C0|C0].
  { rewrite nearest24_small by lia.
    pose proof (Z.pow_pos_nonneg 2 j ltac:(lia) Hj). lia. }
  destruct (Z.eq_dec Y (2 ^ j)) as [->|Hne].
  { rewrite nearest24_pow2 by assumption. lia. }
  pose proof (nearest24_upper Y ltac:(lia)) as Hu.
  assert (Z.log2 Y < j) by (apply Z.log2_lt_pow2; lia).
  assert (2 ^ (Z.log2 Y + 1) <= 2 ^ j) by (apply Z.pow_le_mono_r; lia).
  lia.
Qed.

(** An integer that lies within less than half a unit in the last place
    of a [float] value rounds to that value. *)
Lemma nearest24_stable (b Y : Z) :
  0 < b -> 2 ^ 24 <= Y ->
  - 2 ^ (Z.log2 Y - 23) < 2 * (Y - nearest24 b) < 2 ^ (Z.log2 Y - 23) ->
  nearest24 Y = nearest24 b.
Proof.
  intros Hb HY Hnear.
  assert (HL' : 24 <= Z.log2 Y) by (apply Z.log2_le_pow2; lia).
  set (N := Z.log2 Y - 23) in *.
  assert (HN : 1 <= N) by (unfold N; lia).
  pose proof (Z.log2_spec Y ltac:(lia)) as [HYl HYu].
  replace (Z.log2 Y) with (N + 23) in HYl by (unfold N; lia).
  pose proof (Z.pow_pos_nonneg 2 (N - 1) ltac:(lia) ltac:(lia)) as HP.
  assert (EN : 2 ^ N = 2 * 2 ^ (N - 1)).
  { rewrite <- Z.pow_succ_r by lia. f_equal. lia. }
  assert (EL : 2 ^ (N + 23) = 2 ^ 24 * 2 ^ (N - 1)).
  { rewrite <- Z.pow_add_r by lia. f_equal. lia. }
  (* the float value is a multiple of the unit in the last place of [Y] *)
  assert (Hgrid : exists f, nearest24 b = f * 2 ^ N).
  { pose proof (nearest24_lower b Hb) as Hlo.
    pose proof (nearest24_upper b Hb) as Hup.
    pose proof (Z.log2_nonneg b) as HLb.
    set (L := Z.log2 b) in *.
    assert (HL : N + 22 <= L).
    { destruct (Z_lt_le_dec L (N + 22)) as [C|C]; [|assumption].
      assert (2 ^ (L + 1) <= 2 ^ (N + 22)) by (apply Z.pow_le_mono_r; lia).
      assert (2 ^ (N + 22) = 2 ^ 23 * 2 ^ (N - 1))
        by (rewrite <- Z.pow_add_r by lia; f_equal; lia).
      lia. }
    assert (EF : nearest24 b
                 = div_half_even b (2 ^ (L - 23)) * 2 ^ (L - 23)).
    { unfold nearest24. fold L.
      replace (Z.max 0 (L - 23)) with (L - 23) by lia. reflexivity. }
    rewrite EF in *. clear EF.
    set (q := div_half_even b (2 ^ (L - 23))) in *.
    destruct (Z.eq_dec L (N + 22)) as [E|E].
    - (* one binade below: only its upper end is close enough *)
      replace (L - 23) with (N - 1) in * by lia.
      replace (L + 1) with (N + 23) in Hup by lia.
      exists (2 ^ 23).
      replace (2 ^ 23 * 2 ^ N) with (2 ^ 24 * 2 ^ (N - 1)) by lia.
      assert (Hq1 : q * 2 ^ (N - 1) <= 2 ^ 24 * 2 ^ (N - 1)) by lia.
      assert (Hq2 : (2 ^ 24 - 1) * 2 ^ (N - 1) < q * 2 ^ (N - 1)) by lia.
      apply Z.mul_le_mono_pos_r in Hq1; [|assumption].
      apply Z.mul_lt_mono_pos_r in Hq2; [|assumption].
      f_equal. lia.
    - exists (q * 2 ^ (L - 23 - N)).
      rewrite <- Z.mul_assoc, <- Z.pow_add_r by lia.
      do 2 f_equal. lia. }
  destruct Hgrid as [f Hf].
  unfold nearest24 at 1. fold N.
  replace (Z.max 0 N) with N by lia.
  rewrite (div_half_even_near Y (2 ^ N) f); [lia|lia|].
  rewrite Hf in Hnear. lia.
Qed.

(** ** Formatting again what was printed *)

Lemma nearest24_nonneg (b : Z) : 0 <= b -> 0 <= nearest24 b.
Proof.
  intros Hb. destruct (Z.eq_dec b 0) as [->|Hz]; [reflexivity|].
  pose proof (nearest24_lower b ltac:(lia)).
  pose proof (Z.pow_pos_nonneg 2 (Z.log2 b) ltac:(lia) (Z.log2_nonneg b)).
  lia.
Qed.

(** Where the rounding of [b'] to [float] is fine compared with the unit
    [D], the value of [b'] prints as the same number [h]. *)
Lemma reformat_fine (b' h D B : Z) :
  0 < D -> 101 <= h ->
  -100 < 100 * b' - h * D < 100 ->
  2 ^ Z.max 0 (Z.log2 b' - 23) <= B -> 200 + 100 * B < D ->
  div_half_even (100 * nearest24 b') D = h /\ D < nearest24 b'.
Proof.
  intros HD Hh Hr HB HBD.
  pose proof (nearest24_error b') as He. cbv zeta in He.
  assert (Hn : - D < 2 * (h * D - 100 * nearest24 b') < D) by lia.
  split; [apply div_half_even_near; assumption|nia].
Qed.

Lemma ulp_bound (Y j : Z) :
  0 <= j -> Y < 2 ^ (j + 24) ->
  2 ^ Z.max 0 (Z.log2 Y - 23) <= 2 ^ j.
Proof.
  intros Hj HY. apply Z.pow_le_mono_r; [lia|].
  assert (Z.log2 Y < j + 24); [|lia].
  destruct (Z_le_gt_dec Y 0) as [C|C].
  - rewrite Z.log2_nonpos by assumption. lia.
  - apply Z.log2_lt_pow2; lia.
Qed.

Ltac unit_index_cases F :=
  unfold unit_index;
  destruct (Z.leb_spec F 1024);
    [|destruct (Z.leb_spec F (1024 ^ 2));
      [|destruct (Z.leb_spec F (1024 ^ 3));
        [|destruct (Z.leb_spec F (1024 ^ 4))]]].

(** The unit and the printed number of a byte count read back from the
    string are those of the string, unless the string shows [1.00] in a
    unit above B. *)
Lemma reformat_fields (b b' : Z) :
  0 <= b < 2 ^ 63 -> reads_back b b' ->
  unit_index (nearest24 b) = 0%nat \/ size_hundredths b <> 100 ->
  0 <= b' < 2 ^ 64
  /\ unit_index (nearest24 b') = unit_index (nearest24 b)
  /\ size_hundredths b' = size_hundredths b.
Proof.
  intros Hb Hr Hx. unfold reads_back, size_hundredths in *.
  pose proof (nearest24_nonneg b ltac:(lia)) as HF0.
  pose proof (nearest24_le_pow2 b 63 ltac:(lia) ltac:(lia)) as HF63.
  set (F := nearest24 b) in *.
  assert (Hk : exists k, unit_index F = k) by eauto.
  destruct Hk as [k Hk]. rewrite Hk in *.
  pose proof (unit_index_spec F) as (Hk4 & Hlow & Hhigh). rewrite Hk in *.
  destruct k as [|k].
  { (* bytes: the number of bytes itself is printed *)
    clear Hlow. specialize (Hhigh ltac:(lia)).
    change (1024 ^ (Z.of_nat 0 + 1)) with 1024 in Hhigh.
    change (1024 ^ Z.of_nat 0) with 1 in *.
    assert (Hsmall : b < 2 ^ 24).
    { destruct (Z_lt_le_dec b (2 ^ 24)) as [C|C]; [assumption|].
      pose proof (nearest24_lower b ltac:(lia)).
      assert (2 ^ 24 <= 2 ^ Z.log2 b).
      { apply Z.pow_le_mono_r; [lia|]. apply Z.log2_le_pow2; lia. }
      fold F in H. lia. }
    assert (F = b) by (apply nearest24_small; assumption).
    rewrite div_half_even_1 in Hr.
    assert (b' = b) by lia. subst b'. fold F. rewrite Hk.
    change (1024 ^ Z.of_nat 0) with 1. lia. }
  (* a unit above B *)
  destruct Hx as [Hx|Hx]; [discriminate|].
  set (D := 1024 ^ Z.of_nat (S k)) in *.
  assert (HD : 0 < D) by (apply Z.pow_pos_nonneg; lia).
  pose proof (Hlow k ltac:(lia)) as HDF.
  replace (Z.of_nat k + 1) with (Z.of_nat (S k)) in HDF by lia. fold D in HDF.
  assert (Hbpos : 0 < b).
  { destruct (Z.eq_dec b 0) as [Hz|Hz]; [|lia].
    exfalso. assert (F = 0) by (unfold F; rewrite Hz; reflexivity). lia. }
  pose proof (div_half_even_error (100 * F) D HD) as E1.
  set (h := div_half_even (100 * F) D) in *.
  assert (Hh : 101 <= h) by nia.
  assert (Hb'0 : 0 <= b') by nia.
  destruct (Nat.eq_dec (S k) 4) as [K4|K4].
  - (* TB *)
    assert (ED : D = 2 ^ 40) by (unfold D; rewrite K4; reflexivity).
    assert (Hb'64 : b' < 2 ^ 64) by lia.
    split; [lia|].
    destruct (Z_lt_le_dec b' (2 ^ 57)) as [C|C].
    + destruct (reformat_fine b' h D (2 ^ 33) HD Hh Hr) as [Hh' HF'].
      { apply (ulp_bound b' 33); lia. }
      { lia. }
      assert (HU : unit_index (nearest24 b') = S k)
        by (rewrite K4; apply unit_index_TB; lia).
      rewrite HU. split; [reflexivity|exact Hh'].
    + assert (E : nearest24 b' = F).
      { apply nearest24_stable; [lia|lia|].
        assert (2 ^ 34 <= 2 ^ (Z.log2 b' - 23)).
        { apply Z.pow_le_mono_r; [lia|].
          assert (57 <= Z.log2 b') by (apply Z.log2_le_pow2; lia). lia. }
        fold F. lia. }
      rewrite E. fold F. rewrite Hk. split; reflexivity.
  - (* KB, MB, GB *)
    specialize (Hhigh ltac:(lia)).
    replace (Z.of_nat (S k) + 1) with (1 + Z.of_nat (S k)) in Hhigh by lia.
    rewrite Z.pow_add_r in Hhigh by lia. fold D in Hhigh.
    change (1024 ^ 1) with 1024 in Hhigh.
    assert (Hh2 : h <= 102400) by nia.
    assert (Hb'hi : b' <= 1024 * D) by nia.
    assert (Hcase : (k = 0 \/ k = 1 \/ k = 2)%nat) by lia.
    assert (Hfine : exists j i,
               (0 <= j /\ 0 <= i < 64) /\ 1024 * D = 2 ^ i
               /\ 2 ^ i < 2 ^ (j + 24) /\ 200 + 100 * 2 ^ j < D).
    { destruct Hcase as [->|[->| ->]]; unfold D.
      - exists 0, 20. repeat split; vm_compute; reflexivity || discriminate.
      - exists 7, 30. repeat split; vm_compute; reflexivity || discriminate.
      - exists 17, 40. repeat split; vm_compute; reflexivity || discriminate. }
    destruct Hfine as (j & i & (Hj & Hi) & E2 & Hij & Hlt).
    destruct (reformat_fine b' h D (2 ^ j) HD Hh Hr) as [Hh' HF'].
    { apply ulp_bound; lia. }
    { lia. }
    assert (HF'hi : nearest24 b' <= 1024 * D).
    { rewrite E2. apply nearest24_le_pow2; lia. }
    assert (HU : unit_index (nearest24 b') = S k).
    { destruct Hcase as [->|[->| ->]]; unfold D in *;
        [change (Z.of_nat 1) with 1 in * | change (Z.of_nat 2) with 2 in *
         | change (Z.of_nat 3) with 3 in *];
        unit_index_cases (nearest24 b'); lia. }
    rewrite HU. split; [|split; [reflexivity|exact Hh']].
    assert (2 ^ i < 2 ^ 64) by (apply Z.pow_lt_mono_r; lia). lia.
Qed.

Lemma size_unit_B (b : Z) :
  size_unit b = "B" <-> unit_index (nearest24 b) = 0%nat.
Proof.
  unfold size_unit.
  pose proof (unit_index_spec (nearest24 b)) as [H _].
  destruct (unit_index (nearest24 b)) as [|[|[|[|[|k]]]]];
    simpl; split; intros E; try reflexivity; try discriminate E; lia.
Qed.

(** The largest [off_t] values round up to [2^63]; below them the [float]
    is at most the largest [float] under [2^63]. *)
Lemma nearest24_top (b : Z) :
  2 ^ 63 - 2 ^ 38 <= b < 2 ^ 63 -> nearest24 b = 2 ^ 63.
Proof.
  intros Hb.
  assert (H62 : Z.log2 b = 62) by (apply Z.log2_unique; lia).
  unfold nearest24. rewrite H62.
  change (2 ^ Z.max 0 (62 - 23)) with 549755813888.
  unfold div_half_even.
  pose proof (Z.div_mod b 549755813888 ltac:(lia)).
  pose proof (Z.mod_pos_bound b 549755813888 ltac:(lia)).
  assert (Hq : b / 549755813888 = 16777215) by lia. rewrite Hq.
  destruct (Z.compare_spec (2 * (b mod 549755813888)) 549755813888);
    try reflexivity; lia.
Qed.

Lemma nearest24_below_top (b : Z) :
  0 <= b < 2 ^ 63 - 2 ^ 38 -> nearest24 b <= 2 ^ 63 - 2 ^ 39.
Proof.
  intros Hb.
  destruct (Z_lt_le_dec b (2 ^ 62)) as [C|C].
  - pose proof (nearest24_le_pow2 b 62 ltac:(lia) ltac:(lia)). lia.
  - assert (H62 : Z.log2 b = 62) by (apply Z.log2_unique; lia).
    unfold nearest24. rewrite H62.
    change (2 ^ Z.max 0 (62 - 23)) with 549755813888.
    unfold div_half_even.
    pose proof (Z.div_mod b 549755813888 ltac:(lia)).
    pose proof (Z.mod_pos_bound b 549755813888 ltac:(lia)).
    destruct (Z.compare_spec (2 * (b mod 549755813888)) 549755813888);
      [destruct (Z.even _)| |]; lia.
Qed.

(** The byte count read back is an [off_t] exactly when [b] is below the
    values that round up to [2^63]. *)
Lemma reads_back_off_t (b b' : Z) :
  0 <= b < 2 ^ 63 -> reads_back b b' ->
  (b' < 2 ^ 63 <-> b < 2 ^ 63 - 2 ^ 38).
Proof.
  intros Hb Hr. unfold reads_back, size_hundredths in Hr.
  destruct (Z_lt_le_dec b (2 ^ 63 - 2 ^ 38)) as [C|C].
  - split; [intros _; exact C|intros _].
    pose proof (nearest24_below_top b ltac:(lia)) as HF.
    pose proof (nearest24_nonneg b ltac:(lia)) as HF0.
    set (F := nearest24 b) in *.
    revert Hr. unit_index_cases F;
      match goal with
      | |- context [div_half_even _ (1024 ^ Z.of_nat ?k)] =>
          pose proof (div_half_even_error (100 * F) (1024 ^ Z.of_nat k)
                        ltac:(apply Z.pow_pos_nonneg; lia)) as E;
          set (h := div_half_even (100 * F) (1024 ^ Z.of_nat k)) in *
      end;
      [change (1024 ^ Z.of_nat 0) with 1 in *
      |change (1024 ^ Z.of_nat 1) with 1024 in *
      |change (1024 ^ Z.of_nat 2) with (1024 ^ 2) in *
      |change (1024 ^ Z.of_nat 3) with (1024 ^ 3) in *
      |change (1024 ^ Z.of_nat 4) with (1024 ^ 4) in *];
      intros Hr; lia.
  - split; [intros Hb'; exfalso|lia].
    rewrite (nearest24_top b ltac:(lia)) in Hr.
    change (div_half_even (100 * 2 ^ 63)
              (1024 ^ Z.of_nat (unit_index (2 ^ 63)))
            * 1024 ^ Z.of_nat (unit_index (2 ^ 63)))
      with (100 * 2 ^ 63) in Hr.
    lia.
Qed.

(** C7 (as amended).  Let [b'] be the byte count read back from
    [size2str b]: the printed number times 1024 for each unit step.  It is
    an [off_t] exactly when [b < 2^63 - 2^38]; the counts above are
    printed as [8388608.00 TB], which reads back as [2^63].  When [b'] is
    an [off_t], formatting it gives the string [size2str b] again, except
    when that string shows [1.00] in a unit above B: then [b'] is a power
    of 1024, which is not greater than 1024 after the last division, and
    is printed as [1024.00] in the unit below. *)
Theorem size2str_reformat :
  forall b b' : Z,
    0 <= b < 2 ^ 63 -> reads_back b b' ->
    size2str b
    = (print_hundredths (size_hundredths b) ++ " " ++ size_unit b)%string
    /\ (0 <= b' < 2 ^ 63 <-> b < 2 ^ 63 - 2 ^ 38)
    /\ (b' < 2 ^ 63 ->
        size_unit b = "B" \/ size_hundredths b <> 100 ->
        size2str b' = size2str b)
    /\ (size_unit b <> "B" -> size_hundredths b = 100 ->
        exists j, unit_index (nearest24 b) = S j
                  /\ b' = 1024 ^ Z.of_nat (S j)
                  /\ 0 <= b' < 2 ^ 63
                  /\ size2str b' = ("1024.00 " ++ nth j units "")%string).
Proof.
  intros b b' Hb Hr. split; [apply size2str_value; lia|].
  assert (Hpos : 0 <= b').
  { unfold reads_back in Hr.
    pose proof (nearest24_nonneg b ltac:(lia)) as HF0.
    assert (0 <= size_hundredths b).
    { unfold size_hundredths.
      assert (HD : 0 < 1024 ^ Z.of_nat (unit_index (nearest24 b)))
        by (apply Z.pow_pos_nonneg; lia).
      pose proof (div_half_even_floor (100 * nearest24 b) _ HD) as [Hf _].
      pose proof (Z.div_pos (100 * nearest24 b) _ ltac:(lia) HD). lia. }
    assert (0 < 1024 ^ Z.of_nat (unit_index (nearest24 b)))
      by (apply Z.pow_pos_nonneg; lia).
    nia. }
  split; [|split].
  - pose proof (reads_back_off_t b b' Hb Hr). tauto.
  - intros Hb' Hx. rewrite size_unit_B in Hx.
    destruct (reformat_fields b b' Hb Hr Hx) as (_ & Hu & Hh).
    rewrite !size2str_value by lia.
    unfold size_unit. now rewrite Hu, Hh.
  - intros Hu Hh. rewrite size_unit_B in Hu.
    pose proof (unit_index_spec (nearest24 b)) as [Hk _].
    unfold reads_back in Hr. rewrite Hh in Hr.
    destruct (unit_index (nearest24 b)) as [|j]; [congruence|].
    exists j. split; [reflexivity|].
    assert (E : b' = 1024 ^ Z.of_nat (S j)) by lia.
    split; [exact E|]. rewrite E.
    destruct j as [|[|[|[|j]]]]; try (split; [lia|reflexivity]). lia.
Qed.

Lemma size2str_reformat_witness :
  0 <= 123456789 < 2 ^ 63
  /\ reads_back 123456789 123459338
  /\ 123459338 < 2 ^ 63
  /\ size2str 123456789 = "117.74 MB"
  /\ size2str 123459338 = size2str 123456789.
Proof.
  assert (Hb : 0 <= 123456789 < 2 ^ 63) by lia.
  assert (Hr : reads_back 123456789 123459338) by (vm_compute; split; reflexivity).
  assert (Hb' : 123459338 < 2 ^ 63) by lia.
  split; [exact Hb|]. split; [exact Hr|]. split; [exact Hb'|].
  split; [reflexivity|].
  apply (proj1 (proj2 (proj2 (size2str_reformat 123456789 123459338 Hb Hr)))
           Hb').
  right. vm_compute. discriminate.
Defined.

(** The claim as stated fails at 1025 bytes: they are printed as
    ["1.00 KB"], which reads back as 1024 bytes only, and 1024 bytes are
    printed as ["1024.00 B"]. *)
Lemma size2str_reformat_counterexample :
  size2str 1025 = "1.00 KB"
  /\ reads_back 1025 1024
  /\ (forall b', reads_back 1025 b' -> b' = 1024)
  /\ size2str 1024 = "1024.00 B"
  /\ size2str 1024 <> size2str 1025.
Proof.
  split; [reflexivity|]. split; [vm_compute; split; reflexivity|].
  split; [|split; [reflexivity|intros E; vm_compute in E; discriminate E]].
  intros b' H. unfold reads_back in H.
  change (size_hundredths 1025 * 1024 ^ Z.of_nat (unit_index (nearest24 1025)))
    with 102400 in H.
  lia.
Qed.

(** * Further properties *)

(** ** Trimming, again *)

Lemma find_first_not_of_run (pre : string) (c : ascii) (rest : string) :
  all_space pre -> ~ is_space c ->
  StdString.find_first_not_of (pre ++ String c rest) whitespace
  = Some (String.length pre).
Proof.
  intros Hpre Hc. induction pre as [|a pre IH]; string_step.
  - apply mem_whitespace_false in Hc. now rewrite Hc.
  - destruct Hpre as [Ha Hpre]. apply mem_whitespace in Ha.
    rewrite Ha, (IH Hpre). reflexivity.
Qed.

Lemma find_last_not_of_run (r : string) (d : ascii) (post : string) :
  all_space post -> ~ is_space d ->
  StdString.find_last_not_of ((r ++ String d "") ++ post) whitespace
  = Some (String.length r).
Proof.
  intros Hpost Hd. induction r as [|a r IH]; string_step.
  - apply find_last_not_of_none in Hpost. rewrite Hpost.
    apply mem_whitespace_false in Hd. now rewrite Hd.
  - now rewrite IH.
Qed.

Lemma string_snoc (c : ascii) (m : string) :
  exists r d, String c m = r ++ String d "".
Proof.
  revert c; induction m as [|a m IH]; intros c.
  - exists "", c. reflexivity.
  - destruct (IH a) as (r & d & E). exists (String c r), d.
    simpl. now rewrite E.
Qed.

(** X1.  [trimstr] finds the one core of a string: if the input is a run
    of white space, a string [m] that neither starts nor ends with white
    space, and a run of white space, the result is [m], with the white
    space inside [m] untouched. *)
Theorem trimstr_core :
  forall pre m post : string,
    all_space pre -> all_space post -> trimmed m ->
    trimstr (Some (pre ++ m ++ post)) = m.
Proof.
  intros pre m post Hpre Hpost [Hs He].
  destruct m as [|c m].
  - simpl. apply trimstr_all_space. now apply all_space_append.
  - simpl in Hs.
    destruct (string_snoc c m) as (r & d & E).
    assert (Hd : ~ is_space d).
    { rewrite E in He. now rewrite ends_with_space_snoc in He. }
    unfold trimstr.
    change (String c m ++ post) with (String c (m ++ post)).
    rewrite (find_first_not_of_run pre c (m ++ post) Hpre Hs).
    change (String c (m ++ post)) with (String c m ++ post).
    rewrite (find_last_not_of_append pre _ (String.length r)).
    + unfold StdString.substr. rewrite substring_skip.
      replace (String.length pre + String.length r - String.length pre + 1)%nat
        with (String.length (String c m))
        by (rewrite E, length_append; simpl; lia).
      apply substring_prefix.
    + rewrite E. now apply find_last_not_of_run.
Qed.

Lemma trimstr_core_witness :
  all_space (String tab " ") /\ all_space (String newline "")
  /\ trimmed "a  b"
  /\ trimstr (Some (String tab " " ++ "a  b" ++ String newline "")) = "a  b".
Proof.
  assert (H1 : all_space (String tab " "))
    by (simpl; unfold is_space; auto).
  assert (H2 : all_space (String newline ""))
    by (simpl; unfold is_space; auto).
  assert (H3 : trimmed "a  b").
  { split; simpl; unfold is_space, tab, newline;
      intros [H|[H|H]]; discriminate H. }
  split; [exact H1|]. split; [exact H2|]. split; [exact H3|].
  exact (trimstr_core _ _ _ H1 H2 H3).
Defined.

(** X2.  Trimming twice is trimming once, and a string without white
    space at its ends is returned as it is. *)
Theorem trimstr_idempotent :
  forall c : option string,
    trimstr (Some (trimstr c)) = trimstr c
    /\ (forall s, c = Some s -> (trimmed s <-> trimstr c = s)).
Proof.
  intros c.
  assert (Hfix : forall m, trimmed m -> trimstr (Some m) = m).
  { intros m Hm.
    pose proof (trimstr_core "" m "" I I Hm) as H.
    simpl in H. now rewrite append_nil_r in H. }
  split.
  - destruct c as [s|]; [|reflexivity].
    apply Hfix. split; apply (trimstr_trims s).
  - intros s ->. split; [apply Hfix|].
    intros E. rewrite <- E. split; apply (trimstr_trims s).
Qed.

Lemma trimstr_idempotent_witness :
  trimstr (Some (trimstr (Some " x y "))) = trimstr (Some " x y ")
  /\ trimstr (Some "x y") = "x y".
Proof.
  split; [exact (proj1 (trimstr_idempotent (Some " x y ")))|].
  apply (proj2 (trimstr_idempotent (Some "x y")) "x y" eq_refl).
  split; simpl; unfold is_space, tab, newline;
    intros [H|[H|H]]; discriminate H.
Defined.

(** ** Joining, again *)

Lemma join_app (delim : string) (l1 l2 : list string) :
  l1 <> [] -> l2 <> [] ->
  join delim (l1 ++ l2) = join delim l1 ++ delim ++ join delim l2.
Proof.
  intros H1 H2. induction l1 as [|x l1 IH]; [congruence|].
  destruct l1 as [|y l1].
  - destruct l2; [congruence|reflexivity].
  - change (join delim ((x :: y :: l1) ++ l2))
      with (x ++ delim ++ join delim ((y :: l1) ++ l2)).
    rewrite IH by discriminate.
    change (join delim (x :: y :: l1))
      with (x ++ delim ++ join delim (y :: l1)).
    now rewrite !append_assoc.
Qed.

(** X3.  Joining two non-empty lists in a row is joining each and putting
    one delimiter between the results, for [list2str] and for
    [deplist2str]; and [deplist2str] is [list2str] of the rendered
    dependencies, although the two loops place the delimiter by different
    tests. *)
Theorem list2str_app :
  forall (D : Type) (f : D -> string) (delim : string),
    (forall l1 l2, l1 <> [] -> l2 <> [] ->
       list2str (l1 ++ l2) delim
       = list2str l1 delim ++ delim ++ list2str l2 delim)
    /\ (forall d1 d2, d1 <> [] -> d2 <> [] ->
          deplist2str f (d1 ++ d2) delim
          = deplist2str f d1 delim ++ delim ++ deplist2str f d2 delim)
    /\ (forall deps, deplist2str f deps delim = list2str (map f deps) delim).
Proof.
  intros D f delim. repeat split.
  - intros l1 l2 H1 H2. rewrite !list2str_join. now apply join_app.
  - intros d1 d2 H1 H2. rewrite !deplist2str_join, map_app.
    apply join_app; destruct d1, d2; simpl; congruence.
  - intros deps. now rewrite list2str_join, deplist2str_join.
Qed.

Lemma list2str_app_witness :
  list2str (["a"; "b"] ++ ["c"]) ", " = "a, b" ++ ", " ++ "c".
Proof.
  refine (proj1 (list2str_app string (fun x => x) ", ") ["a"; "b"] ["c"] _ _);
    discriminate.
Defined.

(** X4.  The joined string has the characters of the items and, for a list
    of [n > 0] items, [n - 1] delimiters: nothing is dropped or added. *)
Theorem list2str_length :
  forall (l : list string) (delim : string),
    String.length (list2str l delim)
    = (total_length l + (List.length l - 1) * String.length delim)%nat.
Proof.
  intros l delim. rewrite list2str_join. unfold total_length.
  induction l as [|x l IH]; [reflexivity|].
  destruct l as [|y l].
  - simpl. lia.
  - change (join delim (x :: y :: l))
      with (x ++ delim ++ join delim (y :: l)).
    rewrite !length_append, IH. simpl. lia.
Qed.

(** ** [size2str], again *)

(** The conversion of an integer of either sign to [float]. *)
Lemma binary_round_int (s : bool) (p : positive) :
  Zpos p < 2 ^ 64 ->
  exists m e,
    binary_round 24 128 s p 0 = S754_finite s m e
    /\ digits2_pos m = 24%positive
    /\ -23 <= e <= 41
    /\ Zpos m * 2 ^ (e + 23) = nearest24 (Zpos p) * 2 ^ 23.
Proof.
  intros Hb.
  pose proof (digits2_pos_log2 p) as Hd.
  assert (Hl : 0 <= Z.log2 (Zpos p) < 64).
  { split; [apply Z.log2_nonneg|]. apply Z.log2_lt_pow2; lia. }
  destruct (Z_lt_le_dec (Z.log2 (Zpos p)) 23) as [Hs|Hs].
  - set (k := Z.to_pos (23 - Z.log2 (Zpos p))).
    assert (Hk : Zpos k = 23 - Z.log2 (Zpos p)) by (unfold k; lia).
    rewrite (binary_round_small 24 128 s p k) by lia.
    exists (Pos.iter xO p k), (0 - Zpos k). split; [reflexivity|].
    split; [apply Pos2Z.inj; rewrite digits2_pos_iter_xO; lia|].
    split; [lia|].
    rewrite nearest24_small, iter_xO_mul.
    + rewrite <- Z.mul_assoc, <- Z.pow_add_r by lia. do 2 f_equal. lia.
    + apply Z.log2_lt_pow2; lia.
  - set (n := Z.log2 (Zpos p) - 23).
    rewrite (binary_round_exact 24 128 s p 0 n) by (unfold n; lia).
    cbv zeta. unfold nearest24. fold n.
    replace (Z.max 0 n) with n by (unfold n; lia).
    assert (Hm : 2 ^ (24 + n - 1) <= Zpos p < 2 ^ (24 + n)).
    { pose proof (Z.log2_spec (Zpos p) ltac:(lia)) as Hsp.
      replace (24 + n - 1) with (Z.log2 (Zpos p)) by (unfold n; lia).
      replace (24 + n) with (Z.succ (Z.log2 (Zpos p))) by (unfold n; lia).
      exact Hsp. }
    pose proof (div_half_even_bounds _ 24 n ltac:(lia) ltac:(unfold n; lia) Hm)
      as Hq.
    set (q := div_half_even (Zpos p) (2 ^ n)) in *.
    assert (Hn : 0 <= n <= 40) by (unfold n; lia).
    destruct (Z.eqb_spec q (2 ^ 24)) as [E|E].
    + exists (Z.to_pos (2 ^ (24 - 1))), (0 + n + 1).
      split; [reflexivity|]. split; [reflexivity|]. split; [lia|].
      rewrite E. change (Zpos (Z.to_pos (2 ^ (24 - 1)))) with (2 ^ 23).
      replace (0 + n + 1 + 23) with (24 + n) by lia.
      rewrite Z.pow_add_r by lia. lia.
    + exists (Z.to_pos q), (0 + n).
      split; [reflexivity|].
      assert (Hqp : Zpos (Z.to_pos q) = q) by (apply Z2Pos.id; lia).
      split; [|split; [lia|]].
      * apply Pos2Z.inj. rewrite digits2_pos_log2, Hqp.
        apply log2_digits; lia.
      * rewrite Hqp. replace (0 + n + 23) with (n + 23) by lia.
        rewrite Z.pow_add_r by lia. lia.
Qed.

(** A negative [float] is not greater than [1024.0]. *)
Lemma fsize_gt_1024_negative (m : positive) (e : Z) :
  digits2_pos m = 24%positive -> -23 <= e <= 100 ->
  fsize_gt_1024 (S754_finite true m e) = false.
Proof.
  intros Hd He. unfold fsize_gt_1024, double_of_float.
  rewrite (binary_round_small 53 1024 true m 29) by (rewrite ?Hd; lia).
  reflexivity.
Qed.

Lemma digit_0 : digit 0 = "0".
Proof. reflexivity. Qed.

(** A whole number printed with two decimals. *)
Lemma print_hundredths_whole (n : Z) :
  print_hundredths (100 * n) = decimal n ++ ".00".
Proof.
  unfold print_hundredths.
  replace (100 * n / 100) with n
    by (rewrite Z.mul_comm, Z.div_mul by lia; reflexivity).
  replace (100 * n / 10 mod 10) with 0.
  - replace (100 * n mod 10) with 0; [reflexivity|].
    replace (100 * n) with (10 * n * 10) by lia.
    now rewrite Z.mod_mul by lia.
  - replace (100 * n) with (10 * n * 10) by lia.
    rewrite Z.div_mul by lia.
    rewrite Z.mul_comm, Z.mod_mul by lia. reflexivity.
Qed.

(** X5.  A negative [off_t] is never scaled: the loop guard fails at once,
    and the result is the minus sign, the magnitude rounded to [float],
    two zero decimals and the unit B, however large the magnitude. *)
Theorem size2str_negative :
  forall b : Z,
    - 2 ^ 63 <= b < 0 ->
    size2str b = "-" ++ decimal (nearest24 (- b)) ++ ".00 B".
Proof.
  intros b Hb. destruct b as [|p|p]; try lia.
  destruct (binary_round_int true p ltac:(lia))
    as (m & e & Hf & Hd & He & Hv).
  unfold size2str, float_of_off_t, binary_normalize. rewrite Hf.
  change (Z.to_nat (unitssize - 1)) with 4%nat.
  cbn [size2str_loop].
  rewrite fsize_gt_1024_negative by (assumption || lia).
  cbn [andb put_fixed2 sign_string Z.to_nat nth units].
  change (- Zneg p) with (Zpos p).
  replace e with (e - 10 * 0) by lia.
  rewrite (hundredths_value m e (nearest24 (Zpos p)) 0) by (assumption || lia).
  rewrite Z.pow_0_r, div_half_even_1, print_hundredths_whole.
  now rewrite !append_assoc.
Qed.

Lemma size2str_negative_witness :
  - 2 ^ 63 <= -5000000 < 0 /\ size2str (-5000000) = "-5000000.00 B".
Proof.
  split; [lia|]. exact (size2str_negative (-5000000) ltac:(lia)).
Defined.

Lemma unit_index_B (F : Z) : unit_index F = 0%nat <-> F <= 1024.
Proof.
  unit_index_cases F; split; intros; try reflexivity; try discriminate; lia.
Qed.

(** X6.  Up to 1024 bytes the count is printed exactly, with [.00] and the
    unit B; above 1024 bytes the unit is never B. *)
Theorem size2str_bytes :
  forall b : Z,
    (0 <= b <= 1024 -> size2str b = decimal b ++ ".00 B")
    /\ (1024 < b < 2 ^ 63 ->
        size_unit b <> "B"
        /\ size2str b
           = print_hundredths (size_hundredths b) ++ " " ++ size_unit b).
Proof.
  intros b. split; intros Hb.
  - rewrite size2str_value by lia.
    unfold size_hundredths, size_unit.
    rewrite (nearest24_small b) by lia.
    rewrite (proj2 (unit_index_B b)) by lia.
    change (1024 ^ Z.of_nat 0) with 1.
    rewrite div_half_even_1, print_hundredths_whole.
    now rewrite !append_assoc.
  - split; [|apply size2str_value; lia].
    rewrite size_unit_B, unit_index_B.
    pose proof (nearest24_lower b ltac:(lia)) as Hl.
    destruct (Z_lt_le_dec b (2 ^ 24)) as [C|C].
    + rewrite nearest24_small by assumption. lia.
    + assert (2 ^ 24 <= 2 ^ Z.log2 b).
      { apply Z.pow_le_mono_r; [lia|]. apply Z.log2_le_pow2; lia. }
      lia.
Qed.

Lemma size2str_bytes_witness :
  size2str 1000 = "1000.00 B" /\ size_unit 1025 <> "B".
Proof.
  split.
  - exact (proj1 (size2str_bytes 1000) ltac:(lia)).
  - exact (proj1 (proj2 (size2str_bytes 1025) ltac:(lia))).
Defined.

(** X7.  The printed number stays in the range of its unit: at least
    [1.00] in every unit above B, at most [1024.00] in every unit below
    TB, and at most [8388608.00] in TB. *)
Theorem size2str_range :
  forall b : Z,
    0 <= b < 2 ^ 63 ->
    size2str b = print_hundredths (size_hundredths b) ++ " " ++ size_unit b
    /\ 0 <= size_hundredths b <= 838860800
    /\ (size_unit b <> "B" -> 100 <= size_hundredths b)
    /\ (size_unit b <> "TB" -> size_hundredths b <= 102400).
Proof.
  intros b Hb. split; [apply size2str_value; lia|].
  unfold size_hundredths, size_unit.
  pose proof (nearest24_nonneg b ltac:(lia)) as HF0.
  pose proof (nearest24_le_pow2 b 63 ltac:(lia) ltac:(lia)) as HF63.
  set (F := nearest24 b) in *.
  unit_index_cases F;
    match goal with
    | |- context [div_half_even _ (1024 ^ Z.of_nat ?k)] =>
        pose proof (div_half_even_error (100 * F) (1024 ^ Z.of_nat k)
                      ltac:(apply Z.pow_pos_nonneg; lia)) as E;
        set (h := div_half_even (100 * F) (1024 ^ Z.of_nat k)) in *
    end;
    cbn [nth units];
    [change (1024 ^ Z.of_nat 0) with 1 in E
    |change (1024 ^ Z.of_nat 1) with 1024 in E
    |change (1024 ^ Z.of_nat 2) with (1024 ^ 2) in E
    |change (1024 ^ Z.of_nat 3) with (1024 ^ 3) in E
    |change (1024 ^ Z.of_nat 4) with (1024 ^ 4) in E];
    (split; [lia|split; intros Hu; [try lia; congruence|try lia; congruence]]).
Qed.

Lemma size2str_range_witness :
  size_unit 1536 <> "B" /\ 100 <= size_hundredths 1536 <= 102400.
Proof.
  assert (H1 : size_unit 1536 <> "B") by discriminate.
  assert (H2 : size_unit 1536 <> "TB") by discriminate.
  destruct (size2str_range 1536 ltac:(lia)) as (_ & _ & Hlo & Hhi).
  split; [exact H1|]. split; [exact (Hlo H1)|exact (Hhi H2)].
Defined.

Lemma div_half_even_mono (a a' d : Z) :
  0 < d -> a <= a' -> div_half_even a d <= div_half_even a' d.
Proof.
  intros Hd Ha.
  pose proof (Z.div_le_mono a a' d Hd Ha) as Hq.
  pose proof (div_half_even_floor a d Hd) as [_ H1].
  pose proof (div_half_even_floor a' d Hd) as [H2 _].
  destruct (Z.eq_dec (a / d) (a' / d)) as [E|E]; [|lia].
  pose proof (Z.div_mod a d ltac:(lia)) as Da.
  pose proof (Z.div_mod a' d ltac:(lia)) as Da'.
  assert (Hr : a mod d <= a' mod d) by nia.
  unfold div_half_even. rewrite E.
  destruct (Z.compare_spec (2 * (a mod d)) d);
    destruct (Z.compare_spec (2 * (a' mod d)) d);
    destruct (Z.even (a' / d)); lia.
Qed.

(** The rounding to [float] keeps the order. *)
Lemma nearest24_mono (b b' : Z) :
  0 < b -> b <= b' -> nearest24 b <= nearest24 b'.
Proof.
  intros Hb Hbb.
  pose proof (Z.log2_le_mono b b' Hbb) as Hl.
  destruct (Z.eq_dec (Z.log2 b) (Z.log2 b')) as [E|E].
  - unfold nearest24. rewrite E.
    set (n := Z.max 0 (Z.log2 b' - 23)).
    assert (Hp : 0 < 2 ^ n) by (apply Z.pow_pos_nonneg; lia).
    pose proof (div_half_even_mono b b' (2 ^ n) Hp Hbb). nia.
  - pose proof (nearest24_upper b Hb).
    pose proof (nearest24_lower b' ltac:(lia)).
    assert (2 ^ (Z.log2 b + 1) <= 2 ^ Z.log2 b')
      by (apply Z.pow_le_mono_r; lia).
    lia.
Qed.

Lemma unit_index_mono (F F' : Z) :
  F <= F' -> (unit_index F <= unit_index F')%nat.
Proof.
  intros H. unit_index_cases F; unit_index_cases F'; lia.
Qed.

(** X8.  A larger byte count is never shown in a smaller unit. *)
Theorem size2str_unit_monotone :
  forall b b' : Z,
    0 <= b <= b' -> b' < 2 ^ 63 ->
    exists k k',
      size2str b = print_hundredths (size_hundredths b) ++ " " ++ nth k units ""
      /\ size2str b'
         = print_hundredths (size_hundredths b') ++ " " ++ nth k' units ""
      /\ (k <= k' <= 4)%nat.
Proof.
  intros b b' Hb Hb'.
  exists (unit_index (nearest24 b)), (unit_index (nearest24 b')).
  split; [apply size2str_value; lia|].
  split; [apply size2str_value; lia|].
  split; [|apply unit_index_spec].
  apply unit_index_mono.
  destruct (Z.eq_dec b 0) as [->|Hz].
  - change (nearest24 0) with 0. apply nearest24_nonneg. lia.
  - apply nearest24_mono; lia.
Qed.

Lemma size2str_unit_monotone_witness :
  exists k k',
    size2str 2000 = "1.95 " ++ nth k units ""
    /\ size2str 3000000 = "2.86 " ++ nth k' units ""
    /\ (k <= k' <= 4)%nat.
Proof.
  exact (size2str_unit_monotone 2000 3000000 ltac:(lia) ltac:(lia)).
Defined.

Lemma nearest24_idempotent (b : Z) :
  0 <= b -> nearest24 (nearest24 b) = nearest24 b.
Proof.
  intros Hb. destruct (Z.eq_dec b 0) as [->|Hz]; [reflexivity|].
  destruct (Z_lt_le_dec (nearest24 b) (2 ^ 24)) as [C|C].
  - apply nearest24_small. assumption.
  - apply nearest24_stable; [lia|assumption|].
    assert (0 < 2 ^ (Z.log2 (nearest24 b) - 23)).
    { apply Z.pow_pos_nonneg; [lia|].
      assert (24 <= Z.log2 (nearest24 b)) by (apply Z.log2_le_pow2; lia).
      lia. }
    lia.
Qed.

(** X9.  [size2str] sees a byte count through its [float] only.  The
    [float] of [b] is a 24-bit mantissa and an exponent whose value is
    [nearest24 b], which is [b] itself below [2^24] bytes; two byte counts
    with the same value there are printed alike, and so is that value
    itself when it is an [off_t]. *)
Theorem size2str_float_only :
  forall b b' : Z,
    0 < b < 2 ^ 63 ->
    (exists m e,
        float_of_off_t b = S754_finite false m e
        /\ 2 ^ 23 <= Zpos m < 2 ^ 24
        /\ Zpos m * 2 ^ (e + 23) = nearest24 b * 2 ^ 23
        /\ (b < 2 ^ 24 -> Zpos m * 2 ^ (e + 23) = b * 2 ^ 23))
    /\ (0 < b' < 2 ^ 63 -> nearest24 b' = nearest24 b ->
        size2str b' = size2str b)
    /\ (nearest24 b < 2 ^ 63 -> size2str (nearest24 b) = size2str b).
Proof.
  intros b b' Hb.
  pose proof (nearest24_nonneg b ltac:(lia)) as HF0.
  split; [|split].
  - destruct (float_of_off_t_pos b ltac:(lia)) as (m & e & Hf & Hd & He & Hv).
    exists m, e. split; [exact Hf|]. split; [now apply digits24_bounds|].
    split; [exact Hv|].
    intros Hs. now rewrite <- (nearest24_small b Hs).
  - intros Hb' E. rewrite !size2str_value by lia.
    unfold size_hundredths, size_unit. now rewrite E.
  - intros HF. rewrite !size2str_value by lia.
    unfold size_hundredths, size_unit.
    now rewrite nearest24_idempotent by lia.
Qed.

Lemma size2str_float_only_witness :
  nearest24 (2 ^ 40 + 1) = nearest24 (2 ^ 40)
  /\ size2str (2 ^ 40 + 1) = size2str (2 ^ 40)
  /\ size2str (nearest24 123456789) = size2str 123456789.
Proof.
  assert (E : nearest24 (2 ^ 40 + 1) = nearest24 (2 ^ 40))
    by (vm_compute; reflexivity).
  destruct (size2str_float_only (2 ^ 40) (2 ^ 40 + 1) ltac:(lia))
    as (_ & H2 & _).
  split; [exact E|]. split; [exact (H2 ltac:(lia) E)|].
  refine (proj2 (proj2 (size2str_float_only 123456789 1 ltac:(lia))) _).
  vm_compute. reflexivity.
Defined.

(** X10.  The loop ends for every [float], infinities and NaN included:
    once the fuel covers the units that are left, the result fails the
    guard, the unit index has not gone down nor past the last unit, and
    more fuel changes nothing. *)
Theorem size2str_loop_terminates :
  forall (fsize : spec_float) (currentunit : Z) (fuel : nat),
    0 <= currentunit <= unitssize - 1 ->
    unitssize - 1 <= currentunit + Z.of_nat fuel ->
    fsize_gt_1024 (fst (size2str_loop fuel fsize currentunit))
    && (snd (size2str_loop fuel fsize currentunit) <? unitssize - 1) = false
    /\ currentunit <= snd (size2str_loop fuel fsize currentunit)
       <= unitssize - 1
    /\ size2str_loop (S fuel) fsize currentunit
       = size2str_loop fuel fsize currentunit.
Proof.
  intros fsize u fuel. revert fsize u.
  induction fuel as [|fuel IH]; intros fsize u Hu Hf.
  - assert (G : (u <? unitssize - 1) = false)
      by (apply Z.ltb_ge; simpl Z.of_nat in Hf; lia).
    cbn [size2str_loop]. rewrite G, andb_false_r. cbn [fst snd].
    rewrite G, andb_false_r. repeat split; lia.
  - cbn [size2str_loop].
    destruct (fsize_gt_1024 fsize && (u <? unitssize - 1)) eqn:G.
    + apply andb_true_iff in G. destruct G as [G1 G2].
      apply Z.ltb_lt in G2.
      destruct (IH (fsize_div_1024 fsize) (u + 1) ltac:(lia) ltac:(lia))
        as (I1 & I2 & I3).
      split; [exact I1|]. split; [lia|].
      cbn [size2str_loop] in I3. exact I3.
    + cbn [fst snd]. rewrite G. repeat split; lia.
Qed.

Lemma size2str_loop_terminates_witness :
  size2str_loop 5 (S754_infinity false) 0
  = size2str_loop 4 (S754_infinity false) 0
  /\ snd (size2str_loop 4 (S754_infinity false) 0) = 4.
Proof.
  destruct (size2str_loop_terminates (S754_infinity false) 0 4
              ltac:(change (unitssize - 1) with 4; lia)
              ltac:(change (unitssize - 1) with 4; lia))
    as (_ & _ & H).
  split; [exact H|reflexivity].
Defined.

(** ** The constructed object *)

(** What the constructor copies from the package, whether or not the
    package is installed. *)
Lemma Package_new_fields {alpm : Alpm} (pkg : alpm_pkg_t)
  (localdb : alpm_db_t) (colindex0 : Z) (op0 : OperationEnum) (p : Package) :
  Package_new pkg localdb colindex0 op0 = Some p ->
  (_name p = trimstr (alpm_pkg_get_name pkg)
   /\ _url p = trimstr (alpm_pkg_get_url pkg)
   /\ _packager p = trimstr (alpm_pkg_get_packager pkg)
   /\ _desc p = trimstr (alpm_pkg_get_desc pkg)
   /\ _version p = trimstr (alpm_pkg_get_version pkg)
   /\ _dbname p = trimstr (alpm_db_get_name (alpm_pkg_get_db pkg))
   /\ _arch p = trimstr (alpm_pkg_get_arch pkg))
  /\ (_builddate p = alpm_pkg_get_builddate pkg
      /\ _size p = alpm_pkg_get_size pkg
      /\ _installsize p = alpm_pkg_get_isize pkg
      /\ _sizestr p = size2str (alpm_pkg_get_size pkg)
      /\ _installsizestr p = size2str (alpm_pkg_get_isize pkg))
  /\ (_licenses p = list2str (alpm_pkg_get_licenses pkg) " "
      /\ _groups p = list2str (alpm_pkg_get_groups pkg) " "
      /\ _optdepends p
         = deplist2str alpm_dep_compute_string (alpm_pkg_get_optdepends pkg)
             (String newline "            ")
      /\ _conflicts p
         = deplist2str alpm_dep_compute_string (alpm_pkg_get_conflicts pkg) " "
      /\ _provides p
         = deplist2str alpm_dep_compute_string (alpm_pkg_get_provides pkg) " "
      /\ _replaces p
         = deplist2str alpm_dep_compute_string (alpm_pkg_get_replaces pkg) " "
      /\ _depends p
         = deplist2str alpm_dep_compute_string (alpm_pkg_get_depends pkg) " ")
  /\ (_signature p
      = match alpm_pkg_get_base64_sig pkg with
        | Some _ => "Yes"
        | None => "None"
        end)
  /\ _colindex p = colindex0 /\ op p = op0.
Proof.
  unfold Package_new. intros Hp.
  destruct (match alpm_db_get_pkg localdb (alpm_pkg_get_name pkg) with
            | Some lp => local_fields (trimstr (alpm_pkg_get_version pkg)) lp
            | None => Some ("", USE_NOTINSTALLED, "", "")
            end) as [[[[lv us] rb] ofor]|]; [|discriminate].
  injection Hp as <-. cbn. repeat split.
Qed.

Lemma trimstr_trimmed (c : option string) : trimmed (trimstr c).
Proof.
  destruct c as [s|].
  - split; apply (trimstr_trims s).
  - split; simpl; tauto.
Qed.

(** X11.  Every text field that the constructor copies from the package
    (name, URL, packager, description, version, repository, architecture)
    is free of white space at both ends, and stays so under the
    mutators. *)
Theorem reachable_trimmed :
  forall (alpm : Alpm) (p : Package),
    reachable p ->
    trimmed (getname p) /\ trimmed (geturl p) /\ trimmed (getpackager p)
    /\ trimmed (getdesc p) /\ trimmed (_version p) /\ trimmed (getrepo p)
    /\ trimmed (getarch p).
Proof.
  intros alpm p H.
  induction H as [pkg localdb c0 o0 p Hp|i p _ IH|o p _ IH].
  - destruct (Package_new_fields _ _ _ _ p Hp)
      as ((E1 & E2 & E3 & E4 & E5 & E6 & E7) & _).
    unfold getname, geturl, getpackager, getdesc, getrepo, getarch.
    rewrite E1, E2, E3, E4, E5, E6, E7.
    repeat split; apply trimstr_trimmed.
  - destruct p; exact IH.
  - destruct p; exact IH.
Qed.

Lemma reachable_trimmed_witness :
  exists p, sample_Package bar_remote sample_localdb = Some p
            /\ trimmed (getname (setop 2 (setcolindex 7 p)))
            /\ getname (setop 2 (setcolindex 7 p)) = "bar".
Proof.
  eexists. split; [reflexivity|]. split; [|reflexivity].
  refine (proj1 (reachable_trimmed sample_alpm _ _)).
  apply reachable_setop, reachable_setcolindex.
  eapply (reachable_new (alpm := sample_alpm) bar_remote sample_localdb 0 0).
  reflexivity.
Defined.

(** X12.  The two size strings always are [size2str] of the two numbers
    that [getoffattr] returns, and the signature text is ["Yes"] or
    ["None"]: the strings computed at construction stay in step with the
    numbers behind them. *)
Theorem reachable_sizes :
  forall (alpm : Alpm) (libc : Libc) (p : Package),
    reachable p ->
    (forall n, getoffattr A_SIZE p = Return n ->
               getattr A_SIZE p = Return (size2str n))
    /\ (forall n, getoffattr A_ISIZE p = Return n ->
                  getattr A_ISIZE p = Return (size2str n))
    /\ (getsignature p = "Yes" \/ getsignature p = "None").
Proof.
  intros alpm libc p H.
  induction H as [pkg localdb c0 o0 p Hp|i p _ IH|o p _ IH].
  - destruct (Package_new_fields _ _ _ _ p Hp)
      as (_ & (_ & E2 & E3 & E4 & E5) & _ & E6 & _).
    cbn [getoffattr getattr]. unfold getsize, getisize, getsignature.
    rewrite E2, E3, E4, E5, E6.
    split; [|split].
    + now intros n [= <-].
    + now intros n [= <-].
    + destruct (alpm_pkg_get_base64_sig pkg); auto.
  - destruct p; exact IH.
  - destruct p; exact IH.
Qed.

Lemma reachable_sizes_witness :
  exists p, sample_Package foo_remote sample_localdb = Some p
            /\ getoffattr A_SIZE (setcolindex 3 p) = Return 1536
            /\ getattr A_SIZE (setcolindex 3 p) = Return "1.50 KB".
Proof.
  eexists. split; [reflexivity|]. split; [reflexivity|].
  match goal with
  | |- getattr A_SIZE ?q = _ =>
      refine (proj1 (reachable_sizes sample_alpm sample_libc q _) 1536 eq_refl)
  end.
  apply reachable_setcolindex.
  eapply (reachable_new (alpm := sample_alpm) foo_remote sample_localdb 0 0).
  reflexivity.
Defined.

(** On a constructed object [getattr] throws no [PcursesException] for an
    enumerated attribute, and returns a string unless the attribute is the
    build date and [std::ctime] has no text for it. *)
Lemma Package_new_getattr {alpm : Alpm} {libc : Libc} (pkg : alpm_pkg_t)
  (localdb : alpm_db_t) (colindex0 : Z) (op0 : OperationEnum) (p : Package) :
  Package_new pkg localdb colindex0 op0 = Some p ->
  forall a, enumerated_attribute a ->
            ~ raises (getattr a p)
            /\ (a <> A_BUILDDATE \/ ctime (_builddate p) <> None ->
                exists s, getattr a p = Return s).
Proof.
  intros Hp a Ha.
  assert (Hr : (exists s, getreason p = Return s)
               /\ (exists s, getupdatestate p = Return s)).
  { unfold getreason, getupdatestate.
    destruct (alpm_db_get_pkg localdb (alpm_pkg_get_name pkg))
      as [lp|] eqn:Hl.
    - destruct (Package_new_installed _ _ _ _ p lp Hp Hl)
        as (_ & _ & -> & ->).
      destruct (_ =? _), (_ >? _); eauto.
    - destruct (Package_new_notinstalled _ _ _ _ p Hp Hl)
        as (-> & -> & _).
      eauto. }
  destruct Hr as [[sr Hr] [su Hu]]. unfold raises.
  destruct a; simpl in Ha; try tauto; cbn [getattr];
    try (split; [intros [e H]; congruence|eauto]).
  unfold getbuilddate. destruct (ctime (_builddate p)) as [t|].
  - split; [intros [e H]; discriminate|eauto].
  - split; [intros [e H]; discriminate|intros [H|H]; congruence].
Qed.

(** X13.  Install reason and update state agree on whether the package is
    installed: one is NotInstalled exactly when the other is.  A package
    that is not installed has no local version, no required-by and no
    optional-for text, and shows its bare version.  On every reachable
    object [getattr] throws no [PcursesException] for an enumerated
    attribute, and returns a string for it unless it is the build date
    and [std::ctime] returns a null pointer. *)
Theorem reachable_installed :
  forall (alpm : Alpm) (libc : Libc) (p : Package),
    reachable p ->
    (_reason p = IRE_NOTINSTALLED <-> _updatestate p = USE_NOTINSTALLED)
    /\ (getreason p = Return "not installed"
        <-> getupdatestate p = Return "not installed")
    /\ (_updatestate p = USE_NOTINSTALLED ->
        _localversion p = "" /\ getrequiredby p = "" /\ getoptionalfor p = ""
        /\ getversion p = _version p)
    /\ (forall a, enumerated_attribute a ->
                  ~ raises (getattr a p)
                  /\ (a <> A_BUILDDATE \/ ctime (_builddate p) <> None ->
                      exists s, getattr a p = Return s)).
Proof.
  intros alpm libc p H.
  induction H as [pkg localdb c0 o0 p Hp|i p _ IH|o p _ IH].
  - destruct (alpm_db_get_pkg localdb (alpm_pkg_get_name pkg))
      as [lp|] eqn:Hl.
    + destruct (Package_new_installed _ _ _ _ p lp Hp Hl)
        as (_ & _ & Hu & Hr).
      unfold getreason, getupdatestate, getversion. rewrite Hu, Hr.
      split; [|split; [|split]].
      * destruct (_ =? _), (_ >? _); split; discriminate.
      * destruct (_ =? _), (_ >? _); split; discriminate.
      * destruct (_ >? _); discriminate.
      * exact (Package_new_getattr pkg localdb c0 o0 p Hp).
    + destruct (Package_new_notinstalled _ _ _ _ p Hp Hl)
        as (Hu & Hr & Hv & Hb & Ho).
      unfold getreason, getupdatestate, getversion, getrequiredby,
        getoptionalfor.
      rewrite Hu, Hr. repeat split; auto;
        apply (Package_new_getattr pkg localdb c0 o0 p Hp); assumption.
  - destruct p; exact IH.
  - destruct p; exact IH.
Qed.

Lemma reachable_installed_witness :
  exists p, sample_Package bar_remote sample_localdb = Some p
            /\ reachable (alpm := sample_alpm) (setop 2 p)
            /\ getreason (setop 2 p) = Return "not installed"
            /\ getversion (setop 2 p) = "0.3".
Proof.
  eexists. split; [reflexivity|].
  match goal with
  | |- reachable ?q /\ _ =>
      assert (R : reachable (alpm := sample_alpm) q)
  end.
  { apply reachable_setop.
    eapply (reachable_new (alpm := sample_alpm) bar_remote sample_localdb 0 0).
    reflexivity. }
  split; [exact R|].
  destruct (reachable_installed sample_alpm sample_libc _ R)
    as (_ & H2 & H3 & _).
  split.
  - apply H2. reflexivity.
  - apply H3. reflexivity.
Defined.

(** The lists of the local package, for an installed package. *)
Lemma Package_new_installed_lists {alpm : Alpm} (pkg : alpm_pkg_t)
  (localdb : alpm_db_t) (colindex0 : Z) (op0 : OperationEnum) (p : Package)
  (lp : alpm_pkg_t) :
  Package_new pkg localdb colindex0 op0 = Some p ->
  alpm_db_get_pkg localdb (alpm_pkg_get_name pkg) = Some lp ->
  _requiredby p = list2str (alpm_pkg_compute_requiredby lp) " "
  /\ _optionalfor p = list2str (alpm_pkg_compute_optionalfor lp) " ".
Proof.
  unfold Package_new, local_fields. intros Hp Hl. rewrite Hl in Hp.
  destruct (alpm_pkg_get_version lp) as [lv|]; [|discriminate].
  injection Hp as <-. simpl. auto.
Qed.

(** X14.  The list fields of a constructed object: licenses and groups
    are the items joined by one space; depends, conflicts, provides and
    replaces are the rendered dependencies joined by one space; optional
    dependencies are joined by a newline and twelve spaces; required-by
    and optional-for are computed from the installed package, not from the
    package given, and joined by one space. *)
Theorem Package_new_lists :
  forall (alpm : Alpm) (pkg : alpm_pkg_t) (localdb : alpm_db_t)
         (colindex0 : Z) (op0 : OperationEnum) (p : Package),
    Package_new pkg localdb colindex0 op0 = Some p ->
    getlicenses p = join " " (alpm_pkg_get_licenses pkg)
    /\ getgroups p = join " " (alpm_pkg_get_groups pkg)
    /\ getdepends p
       = join " " (map alpm_dep_compute_string (alpm_pkg_get_depends pkg))
    /\ getconflicts p
       = join " " (map alpm_dep_compute_string (alpm_pkg_get_conflicts pkg))
    /\ getprovides p
       = join " " (map alpm_dep_compute_string (alpm_pkg_get_provides pkg))
    /\ getreplaces p
       = join " " (map alpm_dep_compute_string (alpm_pkg_get_replaces pkg))
    /\ getoptdepends p
       = join (String newline "            ")
           (map alpm_dep_compute_string (alpm_pkg_get_optdepends pkg))
    /\ String.length (String newline "            ") = 13%nat
    /\ (forall lp,
          alpm_db_get_pkg localdb (alpm_pkg_get_name pkg) = Some lp ->
          getrequiredby p = join " " (alpm_pkg_compute_requiredby lp)
          /\ getoptionalfor p = join " " (alpm_pkg_compute_optionalfor lp)).
Proof.
  intros alpm pkg localdb c0 o0 p Hp.
  destruct (Package_new_fields _ _ _ _ p Hp)
    as (_ & _ & (E1 & E2 & E3 & E4 & E5 & E6 & E7) & _).
  unfold getlicenses, getgroups, getdepends, getconflicts, getprovides,
    getreplaces, getoptdepends, getrequiredby, getoptionalfor.
  rewrite E1, E2, E3, E4, E5, E6, E7.
  rewrite !list2str_join, !deplist2str_join.
  repeat split.
  - destruct (Package_new_installed_lists _ _ _ _ p lp Hp H) as [-> _].
    apply list2str_join.
  - destruct (Package_new_installed_lists _ _ _ _ p lp Hp H) as [_ ->].
    apply list2str_join.
Qed.

Lemma Package_new_lists_witness :
  exists p, sample_Package foo_remote sample_localdb = Some p
            /\ getdepends p = "glibc bar>=1"
            /\ getrequiredby p = "baz qux".
Proof.
  eexists. split; [reflexivity|].
  match goal with
  | |- getdepends ?q = _ /\ _ =>
      destruct (Package_new_lists sample_alpm foo_remote sample_localdb
                  0 0 q eq_refl)
        as (_ & _ & H3 & _ & _ & _ & _ & _ & H9)
  end.
  split; [exact H3|]. exact (proj1 (H9 foo_local eq_refl)).
Defined.

(** ** Accessors, again *)

(** X15.  [getbuilddate] is the text of [std::ctime] without its last
    character, the newline; an empty text stays empty; and when
    [std::ctime] returns a null pointer the call ends in
    [std::logic_error]. *)
Theorem getbuilddate_strips :
  forall (libc : Libc) (p : Package) (s : string) (c : ascii),
    (ctime (_builddate p) = Some (s ++ String c "") ->
     getbuilddate p = Return s /\ getattr A_BUILDDATE p = Return s)
    /\ (ctime (_builddate p) = Some "" -> getbuilddate p = Return "")
    /\ (ctime (_builddate p) = None ->
        getbuilddate p = ThrowLogicError
        /\ getattr A_BUILDDATE p = ThrowLogicError).
Proof.
  intros libc p s c. split; [|split]; intros E.
  - assert (G : getbuilddate p = Return s).
    { unfold getbuilddate, StdString.substr. rewrite E.
      replace (String.length (s ++ String c "") - 1)%nat
        with (String.length s) by (rewrite length_append; simpl; lia).
      now rewrite substring_prefix. }
    split; [exact G|]. cbn [getattr]. exact G.
  - unfold getbuilddate. rewrite E. reflexivity.
  - cbn [getattr]. unfold getbuilddate. rewrite E. split; reflexivity.
Qed.

Lemma getbuilddate_strips_witness :
  (exists p, sample_Package foo_remote sample_localdb = Some p
             /\ getbuilddate p = Return "Thu Jan  1 00:00:00 1970")
  /\ (exists q, sample_Package far_future sample_localdb = Some q
                /\ getbuilddate q = ThrowLogicError).
Proof.
  split; (eexists; split; [reflexivity|]).
  - match goal with
    | |- getbuilddate ?q = Return ?s =>
        exact (proj1 (proj1 (getbuilddate_strips sample_libc q s newline)
                        eq_refl))
    end.
  - match goal with
    | |- getbuilddate ?q = _ =>
        exact (proj1 (proj2 (proj2
                 (getbuilddate_strips sample_libc q "" newline)) eq_refl))
    end.
Defined.

(** X16.  The mutators compose as assignments do: the last value written
    to a field is the one kept, writing back the value read changes
    nothing, and the two mutators commute. *)
Theorem setcolindex_setop_compose :
  forall (p : Package) (i j : Z) (o o' : OperationEnum),
    setcolindex i (setcolindex j p) = setcolindex i p
    /\ setop o (setop o' p) = setop o p
    /\ setcolindex i (setop o p) = setop o (setcolindex i p)
    /\ setcolindex (getcolindex p) p = p
    /\ setop (getop p) p = p.
Proof.
  intros p i j o o'. destruct p. repeat split.
Qed.

(** X17.  [getattr] fails in four ways only.  It throws a
    [PcursesException], each time with its own message, for a value that
    is no enumerator, for the install reason when the stored reason is no
    enumerator, and for the update state when the stored state is no
    enumerator; and it ends in [std::logic_error] for the build date when
    [std::ctime] returns a null pointer.  So [getoffattr] can return the
    build date as a number while [getattr] fails for it; for sizes
    [getattr] returns a string whenever [getoffattr] returns a number. *)
Theorem getattr_throws :
  forall (libc : Libc) (p : Package) (a : AttributeEnum)
         (e : PcursesException),
    (getattr a p = Throw e <->
     (~ enumerated_attribute a
      /\ e = mkPcursesException "Invalid attribute passed.")
     \/ (a = A_INSTALLSTATE /\ ~ enumerated_reason (_reason p)
         /\ e = mkPcursesException "no package install reason.")
     \/ (a = A_UPDATESTATE /\ ~ enumerated_updatestate (_updatestate p)
         /\ e = mkPcursesException "no package update state."))
    /\ (getattr a p = ThrowLogicError <->
        a = A_BUILDDATE /\ ctime (_builddate p) = None)
    /\ (forall n, getoffattr a p = Return n ->
                  (exists s, getattr a p = Return s)
                  \/ (a = A_BUILDDATE /\ ctime (_builddate p) = None
                      /\ getattr a p = ThrowLogicError)).
Proof.
  intros libc p a e. split; [split|split; [split|]].
  - intros H. destruct a; cbn [getattr] in H; try discriminate H.
    + unfold getbuilddate in H.
      destruct (ctime (_builddate p)); discriminate H.
    + right; left. unfold getreason in H.
      destruct (_reason p); try discriminate H.
      injection H as <-. simpl. tauto.
    + right; right. unfold getupdatestate in H.
      destruct (_updatestate p); try discriminate H.
      injection H as <-. simpl. tauto.
    + left. injection H as <-. simpl. tauto.
  - intros [(Ha & ->)|[(-> & Hr & ->)|(-> & Hu & ->)]].
    + destruct a; simpl in Ha; tauto || reflexivity.
    + cbn [getattr]. unfold getreason.
      destruct (_reason p); simpl in Hr; tauto || reflexivity.
    + cbn [getattr]. unfold getupdatestate.
      destruct (_updatestate p); simpl in Hu; tauto || reflexivity.
  - intros H. destruct a; cbn [getattr] in H; try discriminate H.
    + unfold getbuilddate in H.
      destruct (ctime (_builddate p)); [discriminate H|auto].
    + unfold getreason in H. destruct (_reason p); discriminate H.
    + unfold getupdatestate in H. destruct (_updatestate p); discriminate H.
  - intros [-> Hc]. cbn [getattr]. unfold getbuilddate. now rewrite Hc.
  - intros n H. destruct a; cbn [getoffattr] in H; try discriminate H;
      cbn [getattr]; eauto.
    unfold getbuilddate. destruct (ctime (_builddate p)); eauto.
Qed.

Lemma getattr_throws_witness :
  exists p, sample_Package far_future sample_localdb = Some p
            /\ getattr (A_other 7) p
               = Throw (mkPcursesException "Invalid attribute passed.")
            /\ getattr A_BUILDDATE p = ThrowLogicError
            /\ exists s, getattr A_ISIZE p = Return s.
Proof.
  eexists. split; [reflexivity|].
  match goal with
  | |- getattr _ ?q = _ /\ _ =>
      pose proof (getattr_throws sample_libc q) as H
  end.
  split; [|split].
  - apply (proj1 (H (A_other 7) _)). left. split; [simpl; tauto|reflexivity].
  - apply (proj1 (proj2 (H A_BUILDDATE invalid_attribute))).
    split; reflexivity.
  - destruct (proj2 (proj2 (H A_ISIZE invalid_attribute)) 8192 eq_refl)
      as [Hs|(Hd & _)]; [exact Hs|discriminate Hd].
Defined.
